(** * Crontab schedule parser ([synology/util/schedule_parser.go])

    A shallow embedding of the schedule parser of the Synology Terraform
    provider, and the properties of its specification proved (or refuted)
    on it.

    Conventions of the embedding:
    - a Go [int64] (and [int], 64 bits wide) is a [Z] in
      [[-2^63, 2^63)], arithmetic that can overflow is wrapped explicitly
      ([Int64.wrap]); bit operations are [Z.land], [Z.lor], [Z.lnot] and
      [Z.shiftl] on the two's complement reading of [Z];
    - a Go [string] is a [string] of bytes;
    - a Go function returning [(T, error)] returns a [result T]: a value, an
      [error], or a [fault] when the Go code panics or does not terminate;
    - a [map[string]int64] is a [gmap string Z], a nil map is [None];
    - slices are lists, indexed with [!!] and updated with [<[_:=_]>], an
      index out of range being the fault [IndexOutOfRange];
    - a [float64] is a [spec_float] of precision 53 and maximal exponent
      1024, with the correctly rounded operations of [SpecFloat]. *)

From Stdlib Require Import ZArith String Ascii List Bool Lia.
From Stdlib Require Import Floats.SpecFloat.
From stdpp Require Import base list strings gmap.

Local Open Scope string_scope.
Local Open Scope Z_scope.

(** ** 64-bit signed integers *)

Module Int64.

Definition min_int : Z := - 2 ^ 63.
Definition max_int : Z := 2 ^ 63 - 1.

Definition in_range (z : Z) : Prop := min_int <= z <= max_int.

Definition in_rangeb (z : Z) : bool := (min_int <=? z) && (z <=? max_int).

(** Two's complement wrap-around of an unbounded result. *)
Definition wrap (z : Z) : Z := (z + 2 ^ 63) mod 2 ^ 64 - 2 ^ 63.

Definition add (x y : Z) : Z := wrap (x + y).

(** [x << n] with a signed count [n]: Go panics on a negative count, and a
    count of 64 or more shifts every bit out. *)
Definition shl (x n : Z) : option Z :=
  if n <? 0 then None
  else if 64 <=? n then Some 0
  else Some (wrap (Z.shiftl x n)).

(** [int64(u)] for a [uint64] value [u]. *)
Definition of_uint64 (u : Z) : Z := wrap u.

End Int64.

(** [math.MaxUint64] *)
Definition MaxUint64 : Z := 2 ^ 64 - 1.

(** ** Errors, faults and results *)

(** Why [strconv.Atoi] fails. *)
Inductive atoi_error : Type :=
| ErrSyntax
| ErrRange.

(** The errors the parser builds with [fmt.Errorf], one constructor per
    message, carrying the values formatted into it. *)
Inductive error : Type :=
| EmptySpec
    (* "empty spec string" *)
| FieldCountExact (expected count : Z) (spec : string)
    (* "expected exactly %d fields, found %d: %s" *)
| FieldCountRange (lower upper count : Z) (spec : string)
    (* "expected %d to %d fields, found %d: %s" *)
| TooManyHyphens (expr : string)
    (* "too many hyphens: %s" *)
| TooManySlashes (expr : string)
    (* "too many slashes: %s" *)
| RangeBelowMinimum (start min : Z) (expr : string)
    (* "beginning of range (%d) below minimum (%d): %s" *)
| RangeAboveMaximum (end_ max : Z) (expr : string)
    (* "end of range (%d) above maximum (%d): %s" *)
| RangeInverted (start end_ : Z) (expr : string)
    (* "beginning of range (%d) beyond end of range (%d): %s" *)
| NonPositiveStep (expr : string)
    (* "step of range should be a positive number: %s" *)
| IntParseFailure (expr : string) (cause : atoi_error)
    (* "failed to parse int from %s: %s" *)
| NegativeNumber (num : Z) (expr : string)
    (* "negative number (%d) not allowed: %s" *)
| InvalidDuration (descriptor : string)
    (* "failed to parse duration %s: %s" *)
| UnrecognizedDescriptor (descriptor : string)
    (* "unrecognized descriptor: %s" *).

(** What stops a Go function without a return. *)
Inductive fault : Type :=
| NegativeShift      (* panic: negative shift amount *)
| IndexOutOfRange    (* panic: index out of range *)
| NoTermination      (* the loop never exits *).

Inductive result (A : Type) : Type :=
| Ok (a : A)
| Err (e : error)
| Fault (f : fault).

Arguments Ok {A} a.
Arguments Err {A} e.
Arguments Fault {A} f.

Definition bind {A B : Type} (r : result A) (k : A -> result B) : result B :=
  match r with
  | Ok a => k a
  | Err e => Err e
  | Fault f => Fault f
  end.

Notation "'let*' x := r 'in' k" := (bind r (fun x => k))
  (at level 10, x pattern, r at level 100, k at level 200).

(** A shift whose panic becomes a fault. *)
Definition shl (x n : Z) : result Z :=
  match Int64.shl x n with
  | Some v => Ok v
  | None => Fault NegativeShift
  end.

(** ** The Go library functions the parser calls on strings *)

Definition byte_is (c : ascii) (n : Z) : bool := Z.of_N (N_of_ascii c) =? n.

(** [len(s)] *)
Definition len (s : string) : Z := Z.of_nat (String.length s).

(** [strings.Split(s, sep)] for a separator of one byte: the pieces between
    the separators, empty pieces included; always at least one piece. *)
Fixpoint Split (s : string) (sep : ascii) : list string :=
  match s with
  | EmptyString => [EmptyString]
  | String c s' =>
      if Ascii.eqb c sep then EmptyString :: Split s' sep
      else match Split s' sep with
           | [] => [String c EmptyString]
           | piece :: pieces => String c piece :: pieces
           end
  end.

(** Ends the field read so far, if there is one. *)
Definition flush (cur : string) : list string :=
  match cur with
  | EmptyString => []
  | _ => [cur]
  end.

(** [strings.FieldsFunc(s, f)] for a predicate [f] that holds of ASCII bytes
    only: the maximal runs of bytes outside [f], none of them empty. [cur]
    is the field being read. *)
Fixpoint FieldsFunc_from (cur : string) (s : string) (f : ascii -> bool)
  : list string :=
  match s with
  | EmptyString => flush cur
  | String c s' =>
      if f c then flush cur ++ FieldsFunc_from EmptyString s' f
      else FieldsFunc_from (cur +:+ String c EmptyString) s' f
  end.

Definition FieldsFunc (s : string) (f : ascii -> bool) : list string :=
  FieldsFunc_from EmptyString s f.

(** The number of bytes of the white space character ([unicode.IsSpace])
    that [s] starts with in UTF-8, 0 when it starts with none: the ASCII
    ones are tab, line feed, vertical tab, form feed, carriage return and
    space; the others U+0085, U+00A0, U+1680, U+2000 to U+200A, U+2028,
    U+2029, U+202F, U+205F and U+3000. *)
Definition space_width (s : string) : nat :=
  match s with
  | EmptyString => 0%nat
  | String c0 s0 =>
      let b0 := Z.of_N (N_of_ascii c0) in
      if ((9 <=? b0) && (b0 <=? 13)) || (b0 =? 32) then 1%nat
      else match s0 with
      | EmptyString => 0%nat
      | String c1 s1 =>
          let b1 := Z.of_N (N_of_ascii c1) in
          if (b0 =? 194) && ((b1 =? 133) || (b1 =? 160)) then 2%nat
          else match s1 with
          | EmptyString => 0%nat
          | String c2 _ =>
              let b2 := Z.of_N (N_of_ascii c2) in
              if (b0 =? 225) && (b1 =? 154) && (b2 =? 128) then 3%nat
              else if (b0 =? 226) && (b1 =? 128)
                      && (((128 <=? b2) && (b2 <=? 138))
                          || (b2 =? 168) || (b2 =? 169) || (b2 =? 175))
                   then 3%nat
              else if (b0 =? 226) && (b1 =? 129) && (b2 =? 159) then 3%nat
              else if (b0 =? 227) && (b1 =? 128) && (b2 =? 128) then 3%nat
              else 0%nat
          end
      end
  end.

(** [strings.Fields(s)]: the maximal runs of bytes between white space
    characters. [skip] counts the bytes of a white space character still to
    pass over, [cur] is the field being read. *)
Fixpoint Fields_from (skip : nat) (cur : string) (s : string) : list string :=
  match s with
  | EmptyString => flush cur
  | String c s' =>
      match skip with
      | S k => Fields_from k cur s'
      | O =>
          match space_width s with
          | O => Fields_from 0 (cur +:+ String c EmptyString) s'
          | S k => flush cur ++ Fields_from k EmptyString s'
          end
      end
  end.

Definition Fields (s : string) : list string := Fields_from 0 EmptyString s.

(** [strings.HasPrefix(s, prefix)] *)
Definition HasPrefix (s prefix : string) : bool := String.prefix prefix s.

(** [s[n:]] for [n <= len(s)]. *)
Fixpoint drop_bytes (n : nat) (s : string) : string :=
  match n, s with
  | O, _ => s
  | S k, String _ s' => drop_bytes k s'
  | S _, EmptyString => EmptyString
  end.

(** The value of a decimal digit. *)
Definition digit_value (c : ascii) : option Z :=
  let b := Z.of_N (N_of_ascii c) in
  if (48 <=? b) && (b <=? 57) then Some (b - 48) else None.

Fixpoint parse_digits (acc : Z) (s : string) : option Z :=
  match s with
  | EmptyString => Some acc
  | String c s' =>
      match digit_value c with
      | Some d => parse_digits (10 * acc + d) s'
      | None => None
      end
  end.

(** [strconv.Atoi(s)]: an optional sign and one or more decimal digits, of
    a value that fits an [int]. *)
Definition Atoi (s : string) : Z + atoi_error :=
  match s with
  | EmptyString => inr ErrSyntax
  | String c s' =>
      let neg := byte_is c 45 in
      let digits := if byte_is c 45 || byte_is c 43 then s' else s in
      match digits with
      | EmptyString => inr ErrSyntax
      | _ =>
          match parse_digits 0 digits with
          | None => inr ErrSyntax
          | Some n =>
              let v := if neg then - n else n in
              if Int64.in_rangeb v then inl v else inr ErrRange
          end
      end
  end.

(** ** The data of the parser *)

(** A [*time.Location]; the parser only ever leaves it nil. *)
Record Location : Type := { zone : string }.

Record Schedule : Type := {
  Second : Z;
  Minute : Z;
  Hour : Z;
  Dom : Z;
  Month : Z;
  Dow : Z;
  RepeatHour : Z;
  RepeatMin : Z;
  RepeatDate : Z;
  location : option Location
}.

(** The zero value of [Schedule], which a composite literal starts from. *)
Definition zeroSchedule : Schedule :=
  {| Second := 0; Minute := 0; Hour := 0; Dom := 0; Month := 0; Dow := 0;
     RepeatHour := 0; RepeatMin := 0; RepeatDate := 0; location := None |}.

Record bounds : Type := {
  min : Z;
  max : Z;
  names : option (gmap string Z)
}.

Definition seconds : bounds := {| min := 0; max := 59; names := None |}.
Definition minutes : bounds := {| min := 0; max := 59; names := None |}.
Definition hours : bounds := {| min := 0; max := 23; names := None |}.
Definition dom : bounds := {| min := 1; max := 31; names := None |}.
Definition months : bounds :=
  {| min := 1; max := 12;
     names := Some (list_to_map
       [("jan", 1); ("feb", 2); ("mar", 3); ("apr", 4); ("may", 5);
        ("jun", 6); ("jul", 7); ("aug", 8); ("sep", 9); ("oct", 10);
        ("nov", 11); ("dec", 12)]) |}.
Definition dow : bounds :=
  {| min := 0; max := 6;
     names := Some (list_to_map
       [("sun", 0); ("mon", 1); ("tue", 2); ("wed", 3); ("thu", 4);
        ("fri", 5); ("sat", 6)]) |}.

(** The untyped constant [1 << 63]. *)
Definition starBit : Z := 2 ^ 63.

(** The values of [ParseOption], [1 << iota]. *)
Module Flag.
Definition Second : Z := 1.
Definition Minute : Z := 2.
Definition Hour : Z := 4.
Definition Dom : Z := 8.
Definition Month : Z := 16.
Definition Dow : Z := 32.
Definition DowOptional : Z := 64.
Definition Descriptor : Z := 128.
End Flag.

Definition places : list Z :=
  [Flag.Second; Flag.Minute; Flag.Hour; Flag.Dom; Flag.Month; Flag.Dow].

Definition defaults : list string := ["0"; "0"; "0"; "*"; "*"; "*"].

Record Parser : Type := {
  options : Z;
  optionals : Z
}.

(** [options&place > 0] *)
Definition has (options place : Z) : bool := Z.land options place >? 0.

Definition NewParser (options : Z) : Parser :=
  if has options Flag.DowOptional
  then {| options := Z.lor options Flag.Dow; optionals := 1 |}
  else {| options := options; optionals := 0 |}.

(** [l[i]], which panics out of range. *)
Definition index {A : Type} (l : list A) (i : nat) : result A :=
  match l !! i with
  | Some a => Ok a
  | None => Fault IndexOutOfRange
  end.

(** ** Bit sets *)

Definition toInt64 (u : Z) : Z := Int64.of_uint64 u.

(** The loop of [getBits]: [for i := lowerLimit; i <= upperLimit; i += step].
    [fuel] bounds the number of iterations. *)
Fixpoint getBits_loop (fuel : nat) (i upperLimit step bits : Z) : result Z :=
  if i <=? upperLimit then
    match fuel with
    | O => Fault NoTermination
    | S fuel' =>
        let* b := shl 1 i in
        getBits_loop fuel' (Int64.add i step) upperLimit step (Z.lor bits b)
    end
  else Ok bits.

(** Iterations that the loop cannot exceed unless [step] is 0: [i] moves
    away from [lowerLimit] by at least one each time, and stops the loop
    once it is above [upperLimit] or negative. *)
Definition getBits_fuel (lowerLimit upperLimit : Z) : nat :=
  Z.to_nat (Z.max (upperLimit - lowerLimit) lowerLimit + 2).

Definition getBits (lowerLimit upperLimit step : Z) : result Z :=
  if step =? 1 then
    let* high := shl (toInt64 MaxUint64) (Int64.add upperLimit 1) in
    let* low := shl (toInt64 MaxUint64) lowerLimit in
    Ok (Z.land (Z.lnot high) low)
  else
    getBits_loop (getBits_fuel lowerLimit upperLimit)
      lowerLimit upperLimit step 0.

Definition all (r : bounds) : result Z :=
  let* bits := getBits (min r) (max r) 1 in
  Ok (Z.lor bits (toInt64 starBit)).

(** ** Numbers and names *)

Definition mustParseInt (expr : string) : result Z :=
  match Atoi expr with
  | inr cause => Err (IntParseFailure expr cause)
  | inl num =>
      if num <? 0 then Err (NegativeNumber num expr) else Ok num
  end.

(** ** Floating point and durations *)

Module Float64.

Definition prec : Z := 53.
Definition emax : Z := 1024.

(** [float64(z)] for an integer [z], rounded to nearest even. *)
Definition of_int (z : Z) : spec_float := binary_normalize prec emax z 0 false.

Definition add : spec_float -> spec_float -> spec_float := SFadd prec emax.
Definition div : spec_float -> spec_float -> spec_float := SFdiv prec emax.

(** [math.Ceil(x)]: the least integral value not below [x]; zeros,
    infinities and NaN are returned as they are. *)
Definition Ceil (x : spec_float) : spec_float :=
  match x with
  | S754_finite s m e =>
      if 0 <=? e then x
      else
        let q := Z.shiftr (Zpos m) (- e) in
        if Z.shiftl q (- e) =? Zpos m then x
        else if s then binary_normalize prec emax (- q) 0 true
        else binary_normalize prec emax (q + 1) 0 false
  | _ => x
  end.

(** [int64(x)]: the fraction is discarded. Go leaves the result to the
    implementation when [x] does not fit; amd64 gives the least [int64]. *)
Definition to_int64 (x : spec_float) : Z :=
  match x with
  | S754_zero _ => 0
  | S754_finite s m e =>
      let a := if 0 <=? e then Z.shiftl (Zpos m) e
               else Z.shiftr (Zpos m) (- e) in
      let v := if s then - a else a in
      if Int64.in_rangeb v then v else Int64.min_int
  | _ => Int64.min_int
  end.

End Float64.

(** [time.Duration] is an [int64] count of nanoseconds. *)
Module Duration.

Definition Minute : Z := 60 * 1000000000.
Definition Hour : Z := 60 * Minute.

(** [d.Minutes()]; Go's [/] and [%] truncate toward zero. *)
Definition Minutes (d : Z) : spec_float :=
  let min := Z.quot d Minute in
  let nsec := Z.rem d Minute in
  Float64.add (Float64.of_int min)
    (Float64.div (Float64.of_int nsec) (Float64.of_int (60 * 1000000000))).

(** [d.Hours()] *)
Definition Hours (d : Z) : spec_float :=
  let hour := Z.quot d Hour in
  let nsec := Z.rem d Hour in
  Float64.add (Float64.of_int hour)
    (Float64.div (Float64.of_int nsec)
       (Float64.of_int (60 * 60 * 1000000000))).

End Duration.

(** ** The parser *)

Section Parser.

(** [strings.ToLower] and [time.ParseDuration] belong to the Go library and
    are left open: the parser is modelled for every such pair of functions.
    [ParseDuration] gives the nanoseconds of a duration text, or [None]
    where Go returns an error. *)
Variable ToLower : string -> string.
Variable ParseDuration : string -> option Z.

Definition parseIntOrName (expr : string) (names : option (gmap string Z))
  : result Z :=
  match names with
  | Some table =>
      match table !! ToLower expr with
      | Some namedInt => Ok namedInt
      | None => mustParseInt expr
      end
  | None => mustParseInt expr
  end.

Definition is_wildcard (s : string) : bool :=
  String.eqb s "*" || String.eqb s "?".

(** The first half of [getRange], up to the validation: the operands
    [start], [end] and [step] of the expression, and the star bit [extra]. *)
Definition getRange_operands (expr : string) (r : bounds)
  : result (Z * Z * Z * Z) :=
  let rangeAndStep := Split expr "/" in
  let* range := index rangeAndStep 0 in
  let lowAndHigh := Split range "-" in
  let singleDigit := (length lowAndHigh =? 1)%nat in
  let* low := index lowAndHigh 0 in
  let* (start, end_, extra) :=
    if is_wildcard low then
      Ok (min r, max r, Int64.of_uint64 starBit)
    else
      let* start := parseIntOrName low (names r) in
      match length lowAndHigh with
      | 1%nat => Ok (start, start, 0)
      | 2%nat =>
          let* high := index lowAndHigh 1 in
          let* end_ := parseIntOrName high (names r) in
          Ok (start, end_, 0)
      | _ => Err (TooManyHyphens expr)
      end in
  match length rangeAndStep with
  | 1%nat => Ok (start, end_, 1, extra)
  | 2%nat =>
      let* stepText := index rangeAndStep 1 in
      let* step := mustParseInt stepText in
      (* Special handling: "N/step" means "N-max/step". *)
      Ok (start, if singleDigit then max r else end_, step, extra)
  | _ => Err (TooManySlashes expr)
  end.

(** The second half of [getRange]: the validation of the operands, in the
    order of the source, and the bits of a valid range. *)
Definition getRange_bits (expr : string) (r : bounds)
  (start end_ step extra : Z) : result Z :=
  if start <? min r then Err (RangeBelowMinimum start (min r) expr)
  else if end_ >? max r then Err (RangeAboveMaximum end_ (max r) expr)
  else if start >? end_ then Err (RangeInverted start end_ expr)
  else if step =? 0 then Err (NonPositiveStep expr)
  else
    let* bits := getBits start end_ step in
    Ok (Z.lor bits extra).

Definition getRange (expr : string) (r : bounds) : result Z :=
  let* (start, end_, step, extra) := getRange_operands expr r in
  getRange_bits expr r start end_ step extra.

(** The loop of [getField] over the ranges. On an error Go returns the bits
    gathered so far next to it; no caller reads them. *)
Fixpoint getField_loop (bits : Z) (ranges : list string) (r : bounds)
  : result Z :=
  match ranges with
  | [] => Ok bits
  | expr :: ranges' =>
      let* bit := getRange expr r in
      getField_loop (Z.lor bits bit) ranges' r
  end.

Definition getField (field : string) (r : bounds) : result Z :=
  let ranges := FieldsFunc field (fun c => byte_is c 44) in
  getField_loop 0 ranges r.

(** The loop of [expandFields] over [places], from index [i]; [n] counts
    the fields consumed. *)
Fixpoint expandFields_loop (fields : list string) (options : Z)
  (ps : list Z) (i n : nat) (expFields : list string)
  : result (list string) :=
  match ps with
  | [] => Ok expFields
  | place :: ps' =>
      let* (expFields', n') :=
        if has options place then
          let* f := index fields n in
          Ok (<[i := f]> expFields, S n)
        else Ok (expFields, n) in
      if (n' =? length fields)%nat then Ok expFields'
      else expandFields_loop fields options ps' (S i) n' expFields'
  end.

Definition expandFields (fields : list string) (options : Z)
  : result (list string) :=
  expandFields_loop fields options places 0 0 defaults.

(** [1 << r.min] *)
Definition minBit (r : bounds) : result Z := shl 1 (min r).

Definition parseDescriptor (descriptor : string) : result Schedule :=
  if String.eqb descriptor "@yearly" || String.eqb descriptor "@annually" then
    let* second := minBit seconds in
    let* minute := minBit minutes in
    let* hour := minBit hours in
    let* dayofmonth := minBit dom in
    let* month := minBit months in
    let* dayofweek := all dow in
    Ok {| Second := second; Minute := minute; Hour := hour;
          Dom := dayofmonth; Month := month; Dow := dayofweek;
          RepeatHour := 0; RepeatMin := 0; RepeatDate := 1001;
          location := None |}
  else if String.eqb descriptor "@monthly" then
    let* second := minBit seconds in
    let* minute := minBit minutes in
    let* hour := minBit hours in
    let* dayofmonth := minBit dom in
    let* month := all months in
    let* dayofweek := all dow in
    Ok {| Second := second; Minute := minute; Hour := hour;
          Dom := dayofmonth; Month := month; Dow := dayofweek;
          RepeatHour := 0; RepeatMin := 0; RepeatDate := 1001;
          location := None |}
  else if String.eqb descriptor "@weekly" then
    let* second := minBit seconds in
    let* minute := minBit minutes in
    let* hour := minBit hours in
    let* dayofmonth := all dom in
    let* month := all months in
    let* dayofweek := minBit dow in
    Ok {| Second := second; Minute := minute; Hour := hour;
          Dom := dayofmonth; Month := month; Dow := dayofweek;
          RepeatHour := 0; RepeatMin := 0; RepeatDate := 1001;
          location := None |}
  else if String.eqb descriptor "@daily" || String.eqb descriptor "@midnight" then
    let* second := minBit seconds in
    let* minute := minBit minutes in
    let* hour := minBit hours in
    let* dayofmonth := all dom in
    let* month := all months in
    let* dayofweek := all dow in
    Ok {| Second := second; Minute := minute; Hour := hour;
          Dom := dayofmonth; Month := month; Dow := dayofweek;
          RepeatHour := 0; RepeatMin := 0; RepeatDate := 1001;
          location := None |}
  else if String.eqb descriptor "@hourly" then
    let* second := minBit seconds in
    let* minute := minBit minutes in
    let* hour := all hours in
    let* dayofmonth := all dom in
    let* month := all months in
    let* dayofweek := all dow in
    Ok {| Second := second; Minute := minute; Hour := hour;
          Dom := dayofmonth; Month := month; Dow := dayofweek;
          RepeatHour := 0; RepeatMin := 0; RepeatDate := 1001;
          location := None |}
  else
    let every := "@every " in
    if HasPrefix descriptor every then
      match ParseDuration (drop_bytes (String.length every) descriptor) with
      | None => Err (InvalidDuration descriptor)
      | Some duration =>
          if duration <? Duration.Hour then
            Ok {| Second := 0; Minute := 0; Hour := 0;
                  Dom := 0; Month := 0; Dow := 0;
                  RepeatHour := 0;
                  RepeatMin :=
                    Float64.to_int64 (Float64.Ceil (Duration.Minutes duration));
                  RepeatDate := 0;
                  location := None |}
          else if duration <? Duration.Hour * 24 then
            Ok {| Second := 0; Minute := 0; Hour := 0;
                  Dom := 0; Month := 0; Dow := 0;
                  RepeatHour :=
                    Float64.to_int64 (Float64.Ceil (Duration.Hours duration));
                  RepeatMin := 0;
                  RepeatDate := 0;
                  location := None |}
          else
            Ok {| Second := 0; Minute := 0; Hour := 0;
                  Dom := 0; Month := 0; Dow := 0;
                  RepeatHour := 0;
                  RepeatMin := 0;
                  RepeatDate :=
                    Float64.to_int64
                      (Float64.Ceil
                         (Float64.div (Duration.Hours duration)
                            (Float64.of_int 24)));
                  location := None |}
      end
    else Err (UnrecognizedDescriptor descriptor).

(** [spec[0] == '@'] *)
Definition starts_with_at (spec : string) : bool :=
  match spec with
  | String c _ => byte_is c 64
  | EmptyString => false
  end.

(** The number of [places] that [options] enables. *)
Definition upperLimit_of (options : Z) : Z :=
  fold_left (fun n place => if has options place then n + 1 else n) places 0.

(** The closure [field] of [Parse]: it parses nothing once [err] is set, so
    the first error is the one returned. *)
Definition field (fields : list string) (i : nat) (r : bounds) : result Z :=
  let* f := index fields i in
  getField f r.

(** The method [Parser.Parse]. *)
Definition Parser_Parse (p : Parser) (spec : string) : result Schedule :=
  if len spec =? 0 then Err EmptySpec
  else if starts_with_at spec && has (options p) Flag.Descriptor then
    parseDescriptor spec
  else
    let upperLimit := upperLimit_of (options p) in
    let lowerLimit := upperLimit - optionals p in
    let fields := Fields spec in
    let count := Z.of_nat (length fields) in
    if (count <? lowerLimit) || (count >? upperLimit) then
      if lowerLimit =? upperLimit
      then Err (FieldCountExact lowerLimit count spec)
      else Err (FieldCountRange lowerLimit upperLimit count spec)
    else
      let* fields := expandFields fields (options p) in
      let* second := field fields 0 seconds in
      let* minute := field fields 1 minutes in
      let* hour := field fields 2 hours in
      let* dayofmonth := field fields 3 dom in
      let* month := field fields 4 months in
      let* dayofweek := field fields 5 dow in
      Ok {| Second := second; Minute := minute; Hour := hour;
            Dom := dayofmonth; Month := month; Dow := dayofweek;
            RepeatHour := 0; RepeatMin := 0; RepeatDate := 0;
            location := None |}.

Definition standardParser : Parser :=
  NewParser
    (Z.lor Flag.Minute (Z.lor Flag.Hour (Z.lor Flag.Dom
      (Z.lor Flag.Month (Z.lor Flag.Dow Flag.Descriptor))))).

Definition ParseStandard (standardSpec : string) : result Schedule :=
  Parser_Parse standardParser standardSpec.

Definition defaultParser : Parser :=
  NewParser
    (Z.lor Flag.Second (Z.lor Flag.Minute (Z.lor Flag.Hour (Z.lor Flag.Dom
      (Z.lor Flag.Month (Z.lor Flag.DowOptional Flag.Descriptor)))))).

Definition Parse (spec : string) : result Schedule :=
  Parser_Parse defaultParser spec.

End Parser.

(** ** Instances of the Go library functions

    Two concrete functions to run the parser with. *)

Definition lower_byte (c : ascii) : ascii :=
  let b := N_of_ascii c in
  if ((65 <=? b) && (b <=? 90))%N then ascii_of_N (b + 32) else c.

(** [strings.ToLower] on ASCII text: the letters A to Z are lowered and
    every other byte is kept. *)
Fixpoint asciiToLower (s : string) : string :=
  match s with
  | EmptyString => EmptyString
  | String c s' => String (lower_byte c) (asciiToLower s')
  end.

(** The units of [time.ParseDuration] written in ASCII. *)
Definition unitMap (u : string) : option Z :=
  if String.eqb u "ns" then Some 1
  else if String.eqb u "us" then Some 1000
  else if String.eqb u "ms" then Some 1000000
  else if String.eqb u "s" then Some 1000000000
  else if String.eqb u "m" then Some Duration.Minute
  else if String.eqb u "h" then Some Duration.Hour
  else None.

(** Adds the term [v] of unit [u] to the duration [d], unless it
    overflows. *)
Definition close_term (d : Z) (v : option Z) (u : string) : option Z :=
  match v, unitMap u with
  | Some x, Some unit =>
      if x >? 2 ^ 63 / unit then None
      else let d' := d + x * unit in
           if d' >? 2 ^ 63 then None else Some d'
  | _, _ => None
  end.

(** Reads the terms of a duration, each a decimal number and a unit: [d]
    is the sum of the terms read, [v] the number and [u] the unit of the
    term being read. *)
Fixpoint duration_terms (d : Z) (v : option Z) (u : string) (s : string)
  : option Z :=
  match s with
  | EmptyString => close_term d v u
  | String c s' =>
      match digit_value c with
      | Some k =>
          match u with
          | EmptyString =>
              let x := match v with Some x => x | None => 0 end in
              if x >? 2 ^ 63 / 10 then None
              else if 10 * x + k >? 2 ^ 63 then None
              else duration_terms d (Some (10 * x + k)) EmptyString s'
          | _ =>
              match close_term d v u with
              | Some d' => duration_terms d' (Some k) EmptyString s'
              | None => None
              end
          end
      | None =>
          match v with
          | Some _ => duration_terms d v (u +:+ String c EmptyString) s'
          | None => None
          end
      end
  end.

(** [time.ParseDuration] on the durations written without a decimal point,
    such as "90m" and "-1h30m": an optional sign, then terms of whole
    numbers with the units ns, us, ms, s, m and h. A text with a fraction,
    which Go accepts, is refused here. *)
Definition ParseDuration_whole (s : string) : option Z :=
  let neg := match s with String c _ => byte_is c 45 | _ => false end in
  let body := match s with
              | String c s' => if byte_is c 45 || byte_is c 43 then s' else s
              | EmptyString => s
              end in
  if String.eqb body "0" then Some 0
  else match duration_terms 0 None EmptyString body with
       | None => None
       | Some d =>
           if neg then Some (- d)
           else if d >? 2 ^ 63 - 1 then None else Some d
       end.

(** ** Vocabulary of the specification *)

(** Bit [j] belongs to the progression [lo], [lo + step], ... up to [hi]. *)
Definition in_prog (lo hi step j : Z) : bool :=
  (lo <=? j) && (j <=? hi) && ((j - lo) mod step =? 0).

(** The loop of [getBits] run with step 1, which the closed form of the
    step-1 branch replaces. *)
Definition getBits_naive (lo hi : Z) : result Z :=
  getBits_loop (getBits_fuel lo hi) lo hi 1 0.

(** Bounds whose values are bits of a 64-bit word. *)
Definition wf_bounds (r : bounds) : Prop := 0 <= min r <= max r /\ max r <= 63.

(** The bounds [[0,10]] of the examples. *)
Definition bounds_0_10 : bounds := {| min := 0; max := 10; names := None |}.

(** The mask with the single bit [r.min]. *)
Definition min_bit (r : bounds) : Z := 2 ^ min r.

(** The mask with the bits [r.min] to [r.max] and the star bit. *)
Definition all_bits (r : bounds) : Z :=
  Z.lor (2 ^ (max r + 1) - 2 ^ min r) Int64.min_int.

(** A schedule of six bit masks and a repeat-date marker. *)
Definition fieldSchedule
  (second minute hour dayofmonth month dayofweek marker : Z) : Schedule :=
  {| Second := second; Minute := minute; Hour := hour;
     Dom := dayofmonth; Month := month; Dow := dayofweek;
     RepeatHour := 0; RepeatMin := 0; RepeatDate := marker;
     location := None |}.

(** A schedule of repeat fields only. *)
Definition intervalSchedule (hours minutes days : Z) : Schedule :=
  {| Second := 0; Minute := 0; Hour := 0; Dom := 0; Month := 0; Dow := 0;
     RepeatHour := hours; RepeatMin := minutes; RepeatDate := days;
     location := None |}.

(** [int64(math.Ceil(x))] *)
Definition ceil_int64 (x : spec_float) : Z := Float64.to_int64 (Float64.Ceil x).

Definition repeat_free (s : Schedule) : Prop :=
  RepeatHour s = 0 /\ RepeatMin s = 0 /\ RepeatDate s = 0.

Definition bitmasks_zero (s : Schedule) : Prop :=
  Second s = 0 /\ Minute s = 0 /\ Hour s = 0 /\
  Dom s = 0 /\ Month s = 0 /\ Dow s = 0.

Definition bitmasks_nonzero (s : Schedule) : Prop :=
  Second s <> 0 /\ Minute s <> 0 /\ Hour s <> 0 /\
  Dom s <> 0 /\ Month s <> 0 /\ Dow s <> 0.

(** Two of the three repeat fields are zero. *)
Definition one_repeat_field (s : Schedule) : Prop :=
  (RepeatHour s = 0 /\ RepeatDate s = 0) \/
  (RepeatMin s = 0 /\ RepeatDate s = 0) \/
  (RepeatHour s = 0 /\ RepeatMin s = 0).

(** The invariant of the specification: no schedule has both a nonzero
    repeat field and a nonzero bit mask. *)
Definition field_or_interval (s : Schedule) : Prop :=
  repeat_free s \/ bitmasks_zero s.

(** No byte of [s] is [sep]. *)
Fixpoint no_byte (sep : ascii) (s : string) : bool :=
  match s with
  | EmptyString => true
  | String c s' => negb (Ascii.eqb c sep) && no_byte sep s'
  end.

(** A value text: no slash, no hyphen, not a wildcard. *)
Definition plain (s : string) : bool :=
  no_byte "/" s && no_byte "-" s && negb (is_wildcard s).

(** [n] commas. *)
Fixpoint commas (n : nat) : string :=
  match n with
  | O => EmptyString
  | S k => String "," (commas k)
  end.

(** The six slots as the specification describes them: the places are
    walked in order, an enabled place takes the next field while one is
    left, and every other place its default. *)
Fixpoint expand_slots (fields : list string) (options : Z)
  (ps : list Z) (ds : list string) : list string :=
  match ps, ds with
  | place :: ps', d :: ds' =>
      if has options place then
        match fields with
        | f :: fields' => f :: expand_slots fields' options ps' ds'
        | [] => d :: expand_slots [] options ps' ds'
        end
      else d :: expand_slots fields options ps' ds'
  | _, _ => []
  end.

(** Every value bit of [mask] is a value of the bounds [r]. *)
Definition within (r : bounds) (mask : Z) : Prop :=
  forall j, 0 <= j < 63 -> Z.testbit mask j = true -> min r <= j <= max r.

(** The masks of a schedule stay within the bounds of their fields. *)
Definition masks_within_bounds (s : Schedule) : Prop :=
  within seconds (Second s) /\ within minutes (Minute s) /\
  within hours (Hour s) /\ within dom (Dom s) /\
  within months (Month s) /\ within dow (Dow s).

(** Unfolds the greatest [int64] for [lia]. *)
Ltac max_int := unfold Int64.max_int in *.


(** * Properties *)

(** ** 64-bit integers as bit vectors *)

Module Int64Facts.
Import Int64.

Lemma wrap_in_range z : in_range (wrap z).
Proof.
  unfold in_range, wrap, min_int, max_int.
  pose proof (Z.mod_pos_bound (z + 2 ^ 63) (2 ^ 64) ltac:(lia)). lia.
Qed.

Lemma wrap_small z : in_range z -> wrap z = z.
Proof.
  unfold in_range, wrap, min_int, max_int. intros H.
  rewrite Z.mod_small by lia. lia.
Qed.

Lemma wrap_mod z : wrap z mod 2 ^ 64 = z mod 2 ^ 64.
Proof.
  unfold wrap.
  rewrite Zminus_mod_idemp_l. f_equal. lia.
Qed.

Lemma testbit_wrap z j : 0 <= j < 64 -> Z.testbit (wrap z) j = Z.testbit z j.
Proof.
  intros Hj.
  rewrite <- (Z.mod_pow2_bits_low (wrap z) 64 j) by lia.
  rewrite wrap_mod. apply Z.mod_pow2_bits_low. lia.
Qed.

Lemma in_range_sign_extended v :
  in_range v -> forall j, 63 <= j -> Z.testbit v j = Z.testbit v 63.
Proof.
  unfold in_range, min_int, max_int. intros Hv j Hj.
  destruct (Z_lt_le_dec v 0) as [Hneg | Hpos].
  - assert (Hn : forall k, 63 <= k -> Z.testbit (Z.lnot v) k = false).
    { intros k Hk. destruct (Z.eq_dec (Z.lnot v) 0) as [E | E].
      - rewrite E. apply Z.bits_0.
      - apply Z.bits_above_log2.
        + unfold Z.lnot. lia.
        + apply Z.lt_le_trans with 63; [| lia].
          apply Z.log2_lt_pow2; unfold Z.lnot; unfold Z.lnot in E; lia. }
    pose proof (Hn j Hj) as H1. pose proof (Hn 63 ltac:(lia)) as H2.
    rewrite Z.lnot_spec in H1, H2 by lia.
    destruct (Z.testbit v j), (Z.testbit v 63); simpl in *; congruence.
  - assert (Hn : forall k, 63 <= k -> Z.testbit v k = false).
    { intros k Hk. destruct (Z.eq_dec v 0) as [E | E].
      - rewrite E. apply Z.bits_0.
      - apply Z.bits_above_log2; [lia |].
        apply Z.lt_le_trans with 63; [| lia].
        apply Z.log2_lt_pow2; lia. }
    rewrite (Hn j Hj), (Hn 63) by lia. reflexivity.
Qed.

Lemma sign_extended_nonneg v :
  (forall j, 63 <= j -> Z.testbit v j = false) -> 0 <= v < 2 ^ 63.
Proof.
  intros H.
  assert (E : v = v mod 2 ^ 63).
  { apply Z.bits_inj'. intros n Hn.
    destruct (Z_lt_le_dec n 63).
    - rewrite Z.mod_pow2_bits_low by lia. reflexivity.
    - rewrite Z.mod_pow2_bits_high by lia. apply H. lia. }
  rewrite E. apply Z.mod_pos_bound. lia.
Qed.

Lemma sign_extended_in_range v :
  (forall j, 63 <= j -> Z.testbit v j = Z.testbit v 63) -> in_range v.
Proof.
  intros H. unfold in_range, min_int, max_int.
  destruct (Z.testbit v 63) eqn:E.
  - assert (Hn : 0 <= Z.lnot v < 2 ^ 63).
    { apply sign_extended_nonneg. intros j Hj.
      rewrite Z.lnot_spec by lia. rewrite H by lia. reflexivity. }
    unfold Z.lnot in Hn. lia.
  - pose proof (sign_extended_nonneg v H). lia.
Qed.

Lemma int64_ext a b :
  in_range a -> in_range b ->
  (forall j, 0 <= j < 64 -> Z.testbit a j = Z.testbit b j) -> a = b.
Proof.
  intros Ha Hb H. apply Z.bits_inj'. intros n Hn.
  destruct (Z_lt_le_dec n 63).
  - apply H. lia.
  - rewrite (in_range_sign_extended a Ha n), (in_range_sign_extended b Hb n) by lia.
    apply H. lia.
Qed.

Lemma lor_in_range a b : in_range a -> in_range b -> in_range (Z.lor a b).
Proof.
  intros Ha Hb. apply sign_extended_in_range. intros j Hj.
  rewrite !Z.lor_spec.
  rewrite (in_range_sign_extended a Ha j), (in_range_sign_extended b Hb j) by lia.
  reflexivity.
Qed.

Lemma land_in_range a b : in_range a -> in_range b -> in_range (Z.land a b).
Proof.
  intros Ha Hb. apply sign_extended_in_range. intros j Hj.
  rewrite !Z.land_spec.
  rewrite (in_range_sign_extended a Ha j), (in_range_sign_extended b Hb j) by lia.
  reflexivity.
Qed.

Lemma lnot_in_range a : in_range a -> in_range (Z.lnot a).
Proof. unfold in_range, min_int, max_int, Z.lnot. lia. Qed.

End Int64Facts.

Import Int64Facts.

(** ** The bits of [getBits] *)

Lemma shl_one i :
  0 <= i <= 63 ->
  exists b, shl 1 i = Ok b /\ Int64.in_range b /\
    forall j, 0 <= j < 64 -> Z.testbit b j = (j =? i).
Proof.
  intros Hi. unfold shl, Int64.shl.
  destruct (Z.ltb_spec i 0); [lia |].
  destruct (Z.leb_spec 64 i); [lia |].
  eexists. split; [reflexivity |]. split; [apply wrap_in_range |].
  intros j Hj. rewrite testbit_wrap by lia.
  rewrite Z.shiftl_1_l, Z.pow2_bits_eqb by lia.
  apply Z.eqb_sym.
Qed.

Lemma shl_ones n :
  0 <= n <= 64 ->
  exists v, shl (toInt64 MaxUint64) n = Ok v /\ Int64.in_range v /\
    forall j, 0 <= j < 64 -> Z.testbit v j = (n <=? j).
Proof.
  intros Hn.
  replace (toInt64 MaxUint64) with (-1) by reflexivity.
  unfold shl, Int64.shl.
  destruct (Z.ltb_spec n 0); [lia |].
  destruct (Z.leb_spec 64 n).
  - exists 0. split; [reflexivity |]. split.
    + unfold Int64.in_range, Int64.min_int, Int64.max_int. lia.
    + intros j Hj. rewrite Z.bits_0. symmetry. apply Z.leb_gt. lia.
  - eexists. split; [reflexivity |]. split; [apply wrap_in_range |].
    intros j Hj. rewrite testbit_wrap by lia.
    rewrite Z.shiftl_spec by lia.
    destruct (Z.leb_spec n j).
    + apply Z.bits_m1. lia.
    + apply Z.testbit_neg_r. lia.
Qed.

Lemma in_prog_step lo hi step j :
  lo <= hi -> 1 <= step ->
  (j =? lo) || in_prog (lo + step) hi step j = in_prog lo hi step j.
Proof.
  intros Hle Hstep. unfold in_prog.
  replace (j - (lo + step)) with ((j - lo) + (-1) * step) by lia.
  rewrite Z.mod_add by lia.
  destruct (Z.eqb_spec j lo) as [-> | Hne]; simpl.
  - rewrite Z.sub_diag, Z.mod_0_l by lia.
    destruct (Z.leb_spec lo lo), (Z.leb_spec lo hi); try lia; reflexivity.
  - destruct (Z.leb_spec (lo + step) j), (Z.leb_spec lo j); try lia;
      simpl; try reflexivity.
    destruct (Z.leb_spec j hi); simpl; [| reflexivity].
    rewrite Z.mod_small by lia. symmetry. apply Z.eqb_neq. lia.
Qed.

Lemma getBits_loop_bits fuel : forall i upper step bits,
  0 <= i -> upper <= 63 -> 1 <= step -> upper + step <= Int64.max_int ->
  (Z.to_nat (upper - i + 1) <= fuel)%nat ->
  Int64.in_range bits ->
  exists v, getBits_loop fuel i upper step bits = Ok v /\ Int64.in_range v /\
    forall j, 0 <= j < 64 ->
      Z.testbit v j = Z.testbit bits j || in_prog i upper step j.
Proof.
  induction fuel as [| fuel IH]; intros i upper step bits Hi Hup Hstep Hov Hfuel Hbits.
  - simpl. destruct (Z.leb_spec i upper); [lia |].
    exists bits. split; [reflexivity |]. split; [assumption |].
    intros j Hj. unfold in_prog.
    destruct (Z.leb_spec i j), (Z.leb_spec j upper); try lia;
      simpl; rewrite ?orb_false_r; reflexivity.
  - simpl. destruct (Z.leb_spec i upper) as [Hle | Hgt].
    + destruct (shl_one i ltac:(lia)) as (b & Hb & Hbr & Hbt).
      rewrite Hb. simpl.
      assert (Hadd : Int64.add i step = i + step).
      { apply wrap_small. unfold Int64.in_range, Int64.min_int, Int64.max_int in *. lia. }
      rewrite Hadd.
      destruct (IH (i + step) upper step (Z.lor bits b)) as (v & Hv & Hvr & Hvt);
        try lia.
      { apply lor_in_range; assumption. }
      exists v. split; [assumption |]. split; [assumption |].
      intros j Hj. rewrite Hvt, Z.lor_spec, Hbt by lia.
      rewrite <- (in_prog_step i upper step j) by lia.
      rewrite orb_assoc. reflexivity.
    + exists bits. split; [reflexivity |]. split; [assumption |].
      intros j Hj. unfold in_prog.
      destruct (Z.leb_spec i j), (Z.leb_spec j upper); try lia;
        simpl; rewrite ?orb_false_r; reflexivity.
Qed.

Lemma getBits_bits lo hi step :
  0 <= lo <= hi -> hi <= 63 -> 1 <= step -> hi + step <= Int64.max_int ->
  exists v, getBits lo hi step = Ok v /\ Int64.in_range v /\
    forall j, 0 <= j < 64 -> Z.testbit v j = in_prog lo hi step j.
Proof.
  intros Hlo Hhi Hstep Hov. unfold getBits.
  destruct (Z.eqb_spec step 1) as [-> | Hne].
  - assert (Hadd : Int64.add hi 1 = hi + 1).
    { apply wrap_small. unfold Int64.in_range, Int64.min_int, Int64.max_int. lia. }
    rewrite Hadd.
    destruct (shl_ones (hi + 1) ltac:(lia)) as (h & Hh & Hhr & Hht).
    destruct (shl_ones lo ltac:(lia)) as (l & Hl & Hlr & Hlt).
    rewrite Hh; simpl. rewrite Hl; simpl.
    eexists. split; [reflexivity |]. split.
    + apply land_in_range; [apply lnot_in_range |]; assumption.
    + intros j Hj. rewrite Z.land_spec, Z.lnot_spec, Hht, Hlt by lia.
      unfold in_prog. rewrite Z.mod_1_r.
      destruct (Z.leb_spec (hi + 1) j), (Z.leb_spec lo j), (Z.leb_spec j hi);
        try lia; reflexivity.
  - destruct (getBits_loop_bits (getBits_fuel lo hi) lo hi step 0)
      as (v & Hv & Hvr & Hvt); try lia.
    { unfold getBits_fuel. lia. }
    { unfold Int64.in_range, Int64.min_int, Int64.max_int. lia. }
    exists v. split; [assumption |]. split; [assumption |].
    intros j Hj. rewrite Hvt by lia. rewrite Z.bits_0. reflexivity.
Qed.

(** ** Ranges *)

Lemma starBit_bits j : 0 <= j < 64 -> Z.testbit (Int64.of_uint64 starBit) j = (j =? 63).
Proof.
  intros Hj. unfold Int64.of_uint64. rewrite testbit_wrap by lia.
  unfold starBit. rewrite Z.pow2_bits_eqb by lia. apply Z.eqb_sym.
Qed.

Lemma getRange_bits_ok expr r start end_ step extra :
  0 <= min r -> max r <= 63 ->
  min r <= start <= end_ -> end_ <= max r ->
  1 <= step -> end_ + step <= Int64.max_int -> Int64.in_range extra ->
  exists v, getRange_bits expr r start end_ step extra = Ok v /\
    Int64.in_range v /\
    forall j, 0 <= j < 64 ->
      Z.testbit v j = in_prog start end_ step j || Z.testbit extra j.
Proof.
  intros Hmin Hmax Hs He Hstep Hov Hx. unfold getRange_bits.
  destruct (Z.ltb_spec start (min r)); [lia |].
  destruct (Z.gtb_spec end_ (max r)); [lia |].
  destruct (Z.gtb_spec start end_); [lia |].
  destruct (Z.eqb_spec step 0); [lia |].
  destruct (getBits_bits start end_ step) as (v & Hv & Hvr & Hvt); try lia.
  rewrite Hv. simpl. eexists. split; [reflexivity |]. split.
  - apply lor_in_range; assumption.
  - intros j Hj. rewrite Z.lor_spec, Hvt by lia. reflexivity.
Qed.

Lemma getRange_wildcard_operands ToLower r :
  getRange_operands ToLower "*" r = Ok (min r, max r, 1, Int64.of_uint64 starBit) /\
  getRange_operands ToLower "?" r = Ok (min r, max r, 1, Int64.of_uint64 starBit).
Proof. split; reflexivity. Qed.

Lemma Split_no_byte s sep : no_byte sep s = true -> Split s sep = [s].
Proof.
  induction s as [| c s IH]; simpl; [reflexivity |].
  intros H. apply andb_true_iff in H as [Hc Hs].
  apply negb_true_iff in Hc. rewrite Hc, (IH Hs). reflexivity.
Qed.

Lemma Split_app a b sep :
  no_byte sep a = true -> Split (a +:+ String sep b) sep = a :: Split b sep.
Proof.
  induction a as [| c a IH]; simpl.
  - intros _. rewrite Ascii.eqb_refl. reflexivity.
  - intros H. apply andb_true_iff in H as [Hc Ha].
    apply negb_true_iff in Hc. rewrite Hc, (IH Ha). reflexivity.
Qed.

Lemma parse_digits_no_byte sep s : forall acc n,
  digit_value sep = None -> parse_digits acc s = Some n -> no_byte sep s = true.
Proof.
  induction s as [| c s IH]; simpl; intros acc n Hsep H; [reflexivity |].
  destruct (digit_value c) as [d |] eqn:Hd; [| discriminate].
  rewrite (IH _ _ Hsep H), andb_true_r.
  apply negb_true_iff, Ascii.eqb_neq. intros ->. congruence.
Qed.

Lemma Atoi_no_byte sep s n :
  digit_value sep = None -> byte_is sep 45 = false -> byte_is sep 43 = false ->
  Atoi s = inl n -> no_byte sep s = true.
Proof.
  intros Hsep Hminus Hplus. unfold Atoi.
  destruct s as [| c s]; [discriminate |].
  destruct (byte_is c 45 || byte_is c 43) eqn:Hsign.
  - destruct s as [| c' s']; [discriminate |].
    destruct (parse_digits 0 (String c' s')) as [m |] eqn:Hp; [| discriminate].
    intros _.
    change (no_byte sep (String c (String c' s')))
      with (negb (Ascii.eqb c sep) && no_byte sep (String c' s')).
    rewrite (parse_digits_no_byte sep _ _ _ Hsep Hp), andb_true_r.
    apply negb_true_iff, Ascii.eqb_neq. intros ->.
    rewrite Hminus, Hplus in Hsign. discriminate.
  - destruct (parse_digits 0 (String c s)) as [m |] eqn:Hp; [| discriminate].
    intros _. apply (parse_digits_no_byte sep _ _ _ Hsep Hp).
Qed.

Lemma mustParseInt_Ok expr n :
  mustParseInt expr = Ok n -> Atoi expr = inl n /\ 0 <= n <= Int64.max_int.
Proof.
  unfold mustParseInt. destruct (Atoi expr) as [num | cause] eqn:Ha; [| discriminate].
  destruct (Z.ltb_spec num 0); [discriminate |].
  intros [= <-]. split; [reflexivity |]. split; [assumption |].
  unfold Atoi in Ha. destruct expr as [| c s]; [discriminate |].
  destruct (if byte_is c 45 || byte_is c 43 then s else String c s); [discriminate |].
  destruct (parse_digits 0 _); [| discriminate].
  destruct (Int64.in_rangeb _) eqn:Hr; [| discriminate].
  injection Ha as <-. unfold Int64.in_rangeb in Hr.
  apply andb_true_iff in Hr as [_ Hr]. apply Z.leb_le in Hr. exact Hr.
Qed.

Lemma mustParseInt_no_slash expr n :
  mustParseInt expr = Ok n -> no_byte "/" expr = true.
Proof.
  intros H. apply mustParseInt_Ok in H as [H _].
  eapply Atoi_no_byte; [| | | exact H]; reflexivity.
Qed.

Lemma getRange_star_step_operands ToLower r stxt s :
  mustParseInt stxt = Ok s ->
  getRange_operands ToLower ("*/" +:+ stxt) r
  = Ok (min r, max r, s, Int64.of_uint64 starBit).
Proof.
  intros Hs. unfold getRange_operands.
  change ("*/" +:+ stxt) with ("*" +:+ String "/" stxt).
  rewrite Split_app by reflexivity.
  rewrite (Split_no_byte stxt "/") by (eapply mustParseInt_no_slash; eassumption).
  simpl. rewrite Hs. reflexivity.
Qed.

Lemma getRange_star_step ToLower r stxt s :
  0 <= min r <= max r -> max r <= 63 ->
  mustParseInt stxt = Ok s -> 1 < s -> max r + s <= Int64.max_int ->
  exists v, getRange ToLower ("*/" +:+ stxt) r = Ok v /\ Int64.in_range v /\
    forall j, 0 <= j < 64 ->
      Z.testbit v j = in_prog (min r) (max r) s j || (j =? 63).
Proof.
  intros Hr Hmax Hs Hgt Hov. unfold getRange.
  rewrite (getRange_star_step_operands ToLower r stxt s Hs). simpl.
  destruct (getRange_bits_ok ("*/" +:+ stxt) r (min r) (max r) s (Int64.of_uint64 starBit))
    as (v & Hv & Hvr & Hvt); try lia.
  { apply wrap_in_range. }
  exists v. split; [assumption |]. split; [assumption |].
  intros j Hj. rewrite Hvt, starBit_bits by lia. reflexivity.
Qed.

Lemma append_assoc (a b c : string) : (a +:+ b) +:+ c = a +:+ b +:+ c.
Proof.
  induction a as [| x a IH]; [reflexivity |].
  change (String x ((a +:+ b) +:+ c) = String x (a +:+ b +:+ c)).
  f_equal. exact IH.
Qed.

Lemma no_byte_app sep a b :
  no_byte sep (a +:+ b) = no_byte sep a && no_byte sep b.
Proof.
  induction a as [| c a IH]; simpl; [reflexivity |].
  rewrite IH, andb_assoc. reflexivity.
Qed.

Lemma plain_spec s :
  plain s = true ->
  no_byte "/" s = true /\ no_byte "-" s = true /\ is_wildcard s = false.
Proof.
  unfold plain. intros H.
  apply andb_true_iff in H as [H Hw]. apply andb_true_iff in H as [H1 H2].
  apply negb_true_iff in Hw. auto.
Qed.

Lemma getRange_single_step_operands ToLower r ntxt stxt n s :
  plain ntxt = true ->
  parseIntOrName ToLower ntxt (names r) = Ok n ->
  mustParseInt stxt = Ok s ->
  getRange_operands ToLower (ntxt +:+ "/" +:+ stxt) r = Ok (n, max r, s, 0).
Proof.
  intros Hp Hn Hs. apply plain_spec in Hp as (Hslash & Hhyphen & Hw).
  unfold getRange_operands.
  change (ntxt +:+ "/" +:+ stxt) with (ntxt +:+ String "/" stxt).
  rewrite Split_app by assumption.
  rewrite (Split_no_byte stxt "/") by (eapply mustParseInt_no_slash; eassumption).
  simpl. rewrite (Split_no_byte ntxt "-") by assumption.
  simpl. rewrite Hw, Hn. simpl. rewrite Hs. reflexivity.
Qed.

Lemma getRange_range_step_operands ToLower r ntxt mtxt stxt n m s :
  plain ntxt = true -> plain mtxt = true ->
  parseIntOrName ToLower ntxt (names r) = Ok n ->
  parseIntOrName ToLower mtxt (names r) = Ok m ->
  mustParseInt stxt = Ok s ->
  getRange_operands ToLower (ntxt +:+ "-" +:+ mtxt +:+ "/" +:+ stxt) r
  = Ok (n, m, s, 0).
Proof.
  intros Hpn Hpm Hn Hm Hs.
  apply plain_spec in Hpn as (Hnslash & Hnhyphen & Hnw).
  apply plain_spec in Hpm as (Hmslash & Hmhyphen & Hmw).
  unfold getRange_operands.
  replace (ntxt +:+ "-" +:+ mtxt +:+ "/" +:+ stxt)
    with ((ntxt +:+ "-" +:+ mtxt) +:+ String "/" stxt).
  2:{ rewrite !append_assoc. reflexivity. }
  rewrite Split_app.
  2:{ rewrite !no_byte_app, Hnslash, Hmslash. reflexivity. }
  rewrite (Split_no_byte stxt "/") by (eapply mustParseInt_no_slash; eassumption).
  simpl index at 1. simpl.
  change ("-" +:+ mtxt) with (String "-" mtxt).
  rewrite (Split_app ntxt mtxt "-") by assumption.
  rewrite (Split_no_byte mtxt "-") by assumption.
  simpl. rewrite Hnw, Hn. simpl. rewrite Hm. simpl. rewrite Hs. reflexivity.
Qed.

Lemma getRange_single_step ToLower r ntxt stxt n s :
  0 <= min r -> max r <= 63 ->
  plain ntxt = true ->
  parseIntOrName ToLower ntxt (names r) = Ok n ->
  mustParseInt stxt = Ok s ->
  min r <= n <= max r -> 1 <= s -> max r + s <= Int64.max_int ->
  exists v, getRange ToLower (ntxt +:+ "/" +:+ stxt) r = Ok v /\
    Int64.in_range v /\
    forall j, 0 <= j < 64 -> Z.testbit v j = in_prog n (max r) s j.
Proof.
  intros Hmin Hmax Hp Hn Hs Hnr Hstep Hov. unfold getRange.
  rewrite (getRange_single_step_operands ToLower r ntxt stxt n s Hp Hn Hs). simpl.
  destruct (getRange_bits_ok (ntxt +:+ String "/" stxt) r n (max r) s 0)
    as (v & Hv & Hvr & Hvt); try lia.
  { unfold Int64.in_range, Int64.min_int, Int64.max_int. lia. }
  exists v. split; [assumption |]. split; [assumption |].
  intros j Hj. rewrite Hvt, Z.bits_0, orb_false_r by lia. reflexivity.
Qed.

Lemma getRange_range_step ToLower r ntxt mtxt stxt n m s :
  0 <= min r -> max r <= 63 ->
  plain ntxt = true -> plain mtxt = true ->
  parseIntOrName ToLower ntxt (names r) = Ok n ->
  parseIntOrName ToLower mtxt (names r) = Ok m ->
  mustParseInt stxt = Ok s ->
  min r <= n <= m -> m <= max r -> 1 <= s -> m + s <= Int64.max_int ->
  exists v,
    getRange ToLower (ntxt +:+ "-" +:+ mtxt +:+ "/" +:+ stxt) r = Ok v /\
    Int64.in_range v /\
    forall j, 0 <= j < 64 -> Z.testbit v j = in_prog n m s j.
Proof.
  intros Hmin Hmax Hpn Hpm Hn Hm Hs Hnm Hmr Hstep Hov. unfold getRange.
  rewrite (getRange_range_step_operands ToLower r ntxt mtxt stxt n m s
             Hpn Hpm Hn Hm Hs). simpl.
  destruct (getRange_bits_ok (ntxt +:+ "-" +:+ mtxt +:+ "/" +:+ stxt) r n m s 0)
    as (v & Hv & Hvr & Hvt); try lia.
  { unfold Int64.in_range, Int64.min_int, Int64.max_int. lia. }
  exists v. split; [assumption |]. split; [assumption |].
  intros j Hj. rewrite Hvt, Z.bits_0, orb_false_r by lia. reflexivity.
Qed.

(** ** Fields *)

Lemma FieldsFunc_from_app f cur a c b :
  f c = true ->
  FieldsFunc_from cur (a +:+ String c b) f
  = (FieldsFunc_from cur a f ++ FieldsFunc_from EmptyString b f)%list.
Proof.
  intros Hc. revert cur.
  induction a as [| x a IH]; intros cur.
  - simpl. rewrite Hc. reflexivity.
  - change (String x a +:+ String c b) with (String x (a +:+ String c b)).
    simpl. destruct (f x).
    + rewrite IH, app_assoc. reflexivity.
    + apply IH.
Qed.

Lemma FieldsFunc_app f a c b :
  f c = true ->
  FieldsFunc (a +:+ String c b) f = (FieldsFunc a f ++ FieldsFunc b f)%list.
Proof. apply FieldsFunc_from_app. Qed.

Lemma FieldsFunc_commas n : FieldsFunc (commas n) (fun c => byte_is c 44) = [].
Proof. induction n as [| n IH]; [reflexivity | exact IH]. Qed.

Lemma FieldsFunc_double_comma a b :
  FieldsFunc (a +:+ ",," +:+ b) (fun c => byte_is c 44)
  = FieldsFunc (a +:+ "," +:+ b) (fun c => byte_is c 44).
Proof.
  change (a +:+ ",," +:+ b) with (a +:+ String "," (String "," b)).
  change (a +:+ "," +:+ b) with (a +:+ String "," b).
  rewrite !FieldsFunc_app by reflexivity. reflexivity.
Qed.

Lemma FieldsFunc_trailing_comma a :
  FieldsFunc (a +:+ ",") (fun c => byte_is c 44)
  = FieldsFunc a (fun c => byte_is c 44).
Proof.
  rewrite FieldsFunc_app by reflexivity. apply app_nil_r.
Qed.

(** ** The six slots *)

Lemma expand_slots_nil options ps : forall ds,
  length ps = length ds -> expand_slots [] options ps ds = ds.
Proof.
  induction ps as [| p ps IH]; intros [| d ds] Hlen; simpl in *; try lia;
    try reflexivity.
  destruct (has options p); rewrite IH by lia; reflexivity.
Qed.

Lemma expandFields_loop_cons fields options p ps i n expFields :
  expandFields_loop fields options (p :: ps) i n expFields
  = let* (expFields', n') :=
      (if has options p then
         let* f := index fields n in Ok (<[i := f]> expFields, S n)
       else Ok (expFields, n)) in
    if (n' =? length fields)%nat then Ok expFields'
    else expandFields_loop fields options ps (S i) n' expFields'.
Proof. reflexivity. Qed.

Lemma expandFields_loop_slots options ps : forall ds pre consumed rest,
  length ps = length ds -> rest <> [] ->
  expandFields_loop (consumed ++ rest)%list options ps
    (length pre) (length consumed) (pre ++ ds)%list
  = Ok (pre ++ expand_slots rest options ps ds)%list.
Proof.
  induction ps as [| p ps IH]; intros [| d ds] pre consumed rest Hlen Hrest;
    simpl in Hlen; try lia.
  - reflexivity.
  - rewrite expandFields_loop_cons.
    change (expand_slots rest options (p :: ps) (d :: ds))
      with (if has options p then
              match rest with
              | f :: rest' => f :: expand_slots rest' options ps ds
              | [] => d :: expand_slots [] options ps ds
              end
            else d :: expand_slots rest options ps ds).
    destruct (has options p) eqn:Hp.
    + destruct rest as [| f rest']; [congruence |].
      unfold index. rewrite lookup_app_r, Nat.sub_diag by lia.
      change ((f :: rest') !! 0%nat) with (Some f).
      cbn [bind].
      rewrite insert_app_r_alt, Nat.sub_diag by lia.
      change (<[0%nat := f]> (d :: ds)) with (f :: ds).
      destruct (Nat.eqb_spec (S (length consumed)) (length (consumed ++ f :: rest')%list))
        as [E | E].
      * rewrite length_app in E. simpl in E.
        assert (rest' = []) as -> by (destruct rest'; simpl in E; [reflexivity | lia]).
        rewrite expand_slots_nil by lia. reflexivity.
      * assert (Hr : rest' <> []).
        { intros ->. apply E. rewrite length_app. simpl. lia. }
        specialize (IH ds (pre ++ [f])%list (consumed ++ [f])%list rest' ltac:(lia) Hr).
        rewrite !length_app in IH. simpl in IH.
        rewrite <- !app_assoc in IH. simpl in IH.
        rewrite !Nat.add_1_r in IH. rewrite IH. reflexivity.
    + cbn [bind].
      destruct (Nat.eqb_spec (length consumed) (length (consumed ++ rest)%list)) as [E | E].
      * rewrite length_app in E. destruct rest; simpl in E; [congruence | lia].
      * specialize (IH ds (pre ++ [d])%list consumed rest ltac:(lia) Hrest).
        rewrite !length_app in IH. simpl in IH.
        rewrite <- !app_assoc in IH. simpl in IH.
        rewrite !Nat.add_1_r in IH. rewrite IH. reflexivity.
Qed.

Lemma expandFields_slots fields options :
  fields <> [] ->
  expandFields fields options = Ok (expand_slots fields options places defaults).
Proof.
  intros H.
  apply (expandFields_loop_slots options places defaults [] [] fields);
    [reflexivity | assumption].
Qed.

Lemma mustParseInt_negative stxt n :
  Atoi stxt = inl n -> n < 0 -> mustParseInt stxt = Err (NegativeNumber n stxt).
Proof.
  intros Ha Hn. unfold mustParseInt. rewrite Ha.
  destruct (Z.ltb_spec n 0); [reflexivity | lia].
Qed.

Lemma getRange_negative_step ToLower r range stxt n ops :
  no_byte "/" range = true ->
  getRange_operands ToLower range r = Ok ops ->
  Atoi stxt = inl n -> n < 0 ->
  getRange ToLower (range +:+ "/" +:+ stxt) r = Err (NegativeNumber n stxt).
Proof.
  intros Hslash Hops Ha Hn.
  unfold getRange, getRange_operands in *.
  change (range +:+ "/" +:+ stxt) with (range +:+ String "/" stxt).
  rewrite Split_app by assumption.
  rewrite (Split_no_byte stxt "/")
    by (eapply Atoi_no_byte; [| | | exact Ha]; reflexivity).
  rewrite (Split_no_byte range "/") in Hops by assumption.
  cbn [index lookup list_lookup bind length] in *.
  destruct (index (Split range "-") 0) as [low | e | f]; cbn [bind] in *;
    try discriminate.
  destruct (is_wildcard low).
  - cbn [bind]. rewrite (mustParseInt_negative stxt n Ha Hn). reflexivity.
  - destruct (parseIntOrName ToLower low (names r)) as [start | e | f];
      cbn [bind] in *; try discriminate.
    destruct (length (Split range "-")) as [| [| [| k]]]; cbn [bind] in *;
      try discriminate.
    + rewrite (mustParseInt_negative stxt n Ha Hn). reflexivity.
    + destruct (index (Split range "-") 1) as [high | e | f]; cbn [bind] in *;
        try discriminate.
      destruct (parseIntOrName ToLower high (names r)) as [end_ | e | f];
        cbn [bind] in *; try discriminate.
      rewrite (mustParseInt_negative stxt n Ha Hn). reflexivity.
Qed.


(** ** Descriptors *)

Lemma every_prefix text :
  HasPrefix ("@every " +:+ text) "@every " = true /\
  drop_bytes (String.length "@every ") ("@every " +:+ text) = text.
Proof.
  split; [| reflexivity].
  unfold HasPrefix. simpl.
  repeat (destruct (ascii_dec _ _); [| congruence]).
  destruct text; reflexivity.
Qed.

Lemma min_bit_bits r j :
  0 <= min r -> 0 <= j -> Z.testbit (min_bit r) j = (j =? min r).
Proof.
  intros Hr Hj. unfold min_bit. rewrite Z.pow2_bits_eqb by lia. apply Z.eqb_sym.
Qed.

Lemma range_mask_bits lo hi j :
  0 <= lo <= hi -> 0 <= j ->
  Z.testbit (2 ^ (hi + 1) - 2 ^ lo) j = (lo <=? j) && (j <=? hi).
Proof.
  intros H Hj.
  replace (2 ^ (hi + 1) - 2 ^ lo) with (Z.shiftl (Z.ones (hi + 1 - lo)) lo).
  - rewrite Z.shiftl_spec by lia.
    destruct (Z.leb_spec lo j).
    + rewrite Z.testbit_ones_nonneg by lia.
      destruct (Z.ltb_spec (j - lo) (hi + 1 - lo)), (Z.leb_spec j hi);
        try lia; reflexivity.
    + rewrite Z.testbit_neg_r by lia. reflexivity.
  - rewrite Z.shiftl_mul_pow2, Z.ones_equiv by lia.
    replace (hi + 1) with ((hi + 1 - lo) + lo) at 2 by lia.
    rewrite Z.pow_add_r by lia. lia.
Qed.

Lemma min_int_bits j : 0 <= j -> Z.testbit Int64.min_int j = (63 <=? j).
Proof.
  intros Hj. change Int64.min_int with (Z.shiftl (-1) 63).
  rewrite Z.shiftl_spec by lia.
  destruct (Z.leb_spec 63 j).
  - apply Z.bits_m1. lia.
  - apply Z.testbit_neg_r. lia.
Qed.

Lemma all_bits_bits r j :
  0 <= min r <= max r -> max r <= 63 -> 0 <= j < 64 ->
  Z.testbit (all_bits r) j = ((min r <=? j) && (j <=? max r)) || (j =? 63).
Proof.
  intros Hr Hmax Hj. unfold all_bits.
  rewrite Z.lor_spec, range_mask_bits, min_int_bits by lia.
  f_equal. destruct (Z.leb_spec 63 j), (Z.eqb_spec j 63); try lia; reflexivity.
Qed.

Lemma parseDescriptor_shapes ParseDuration descriptor s :
  parseDescriptor ParseDuration descriptor = Ok s ->
  (bitmasks_nonzero s /\
   RepeatHour s = 0 /\ RepeatMin s = 0 /\ RepeatDate s = 1001) \/
  (bitmasks_zero s /\ one_repeat_field s).
Proof.
  unfold parseDescriptor.
  repeat match goal with
  | |- context [if ?b then _ else _] =>
      lazymatch b with
      | context [String.eqb] => destruct b
      end
  end;
  try (intros [= <-]; left; vm_compute; intuition discriminate).
  destruct (HasPrefix descriptor "@every "); [| discriminate].
  destruct (ParseDuration _) as [d |]; [| discriminate].
  destruct (d <? Duration.Hour); [| destruct (d <? Duration.Hour * 24)];
    intros [= <-]; right; unfold bitmasks_zero, one_repeat_field; simpl; tauto.
Qed.


(** The loop panics as soon as [i += step] overflows below a reachable
    upper limit: the sum wraps to a negative [i], which is still
    [<= upperLimit] and is then used as a shift count. *)
Lemma getBits_step_overflow lo hi step :
  0 <= lo <= hi -> hi <= 63 ->
  Int64.max_int - lo < step <= Int64.max_int ->
  getBits lo hi step = Fault NegativeShift.
Proof.
  intros Hlo Hhi Hstep. unfold getBits.
  destruct (Z.eqb_spec step 1) as [-> | _].
  { unfold Int64.max_int in Hstep. lia. }
  assert (Hfuel : exists f, getBits_fuel lo hi = S (S f)).
  { unfold getBits_fuel. exists (Z.to_nat (Z.max (hi - lo) lo)).
    replace (Z.max (hi - lo) lo + 2) with (Z.succ (Z.succ (Z.max (hi - lo) lo))) by lia.
    rewrite !Z2Nat.inj_succ by lia. reflexivity. }
  destruct Hfuel as (f & ->).
  cbn [getBits_loop].
  destruct (Z.leb_spec lo hi); [| lia].
  destruct (shl_one lo ltac:(lia)) as (b & -> & _). cbn [bind].
  assert (Hw : Int64.add lo step = lo + step - 2 ^ 64).
  { unfold Int64.add, Int64.wrap. unfold Int64.max_int in Hstep.
    replace (lo + step + 2 ^ 63) with ((lo + step - 2 ^ 63) + 1 * 2 ^ 64) by lia.
    rewrite Z.mod_add, Z.mod_small by lia. lia. }
  rewrite Hw. unfold Int64.max_int in Hstep.
  destruct (Z.leb_spec (lo + step - 2 ^ 64) hi); [| lia].
  unfold shl, Int64.shl.
  destruct (Z.ltb_spec (lo + step - 2 ^ 64) 0); [reflexivity | lia].
Qed.

(** The fuel of [getBits] is enough: the loop only runs out of it when it
    would not end, which takes a step of 0. *)
Lemma getBits_loop_ends_up fuel : forall i hi step bits,
  0 < step <= Int64.max_int -> Int64.in_range i ->
  (hi < i \/ (i < 0 /\ (1 <= fuel)%nat) \/ (Z.to_nat (hi - i + 2) <= fuel)%nat) ->
  getBits_loop fuel i hi step bits <> Fault NoTermination.
Proof.
  induction fuel as [| fuel IH]; intros i hi step bits Hstep Hi Hm;
    cbn [getBits_loop]; destruct (Z.leb_spec i hi) as [Hle | Hgt];
    try discriminate; try lia.
  unfold shl, Int64.shl.
  destruct (Z.ltb_spec i 0); [discriminate |].
  assert (Hnext : getBits_loop fuel (Int64.add i step) hi step
                    (Z.lor bits (if 64 <=? i then 0 else Int64.wrap (Z.shiftl 1 i)))
                  <> Fault NoTermination).
  { apply IH; [assumption | apply wrap_in_range |].
    unfold Int64.in_range, Int64.min_int, Int64.max_int in Hi.
    destruct (Z_le_gt_dec (i + step) (2 ^ 63 - 1)).
    - unfold Int64.add. rewrite wrap_small
        by (unfold Int64.in_range, Int64.min_int, Int64.max_int; lia).
      right. right. lia.
    - assert (Hw : Int64.add i step = i + step - 2 ^ 64).
      { unfold Int64.add, Int64.wrap. unfold Int64.max_int in Hstep.
        replace (i + step + 2 ^ 63) with ((i + step - 2 ^ 63) + 1 * 2 ^ 64) by lia.
        rewrite Z.mod_add, Z.mod_small by lia. lia. }
      rewrite Hw. unfold Int64.max_int in Hstep.
      right. left. split; lia. }
  destruct (64 <=? i); cbn [bind]; exact Hnext.
Qed.

Lemma getBits_loop_ends_down fuel : forall i hi step bits,
  Int64.min_int <= step < 0 -> Int64.in_range i ->
  (hi < i \/ (i < 0 /\ (1 <= fuel)%nat) \/
   (0 <= i /\ (Z.to_nat (i + 2) <= fuel)%nat)) ->
  getBits_loop fuel i hi step bits <> Fault NoTermination.
Proof.
  induction fuel as [| fuel IH]; intros i hi step bits Hstep Hi Hm;
    cbn [getBits_loop]; destruct (Z.leb_spec i hi) as [Hle | Hgt];
    try discriminate; try lia.
  unfold shl, Int64.shl.
  destruct (Z.ltb_spec i 0); [discriminate |].
  assert (Hnext : getBits_loop fuel (Int64.add i step) hi step
                    (Z.lor bits (if 64 <=? i then 0 else Int64.wrap (Z.shiftl 1 i)))
                  <> Fault NoTermination).
  { apply IH; [assumption | apply wrap_in_range |].
    pose proof (wrap_in_range (i + step)) as Hr.
    unfold Int64.in_range, Int64.min_int, Int64.max_int in Hi, Hr.
    destruct (Z_lt_le_dec (Int64.add i step) 0) as [Hneg | Hpos].
    - right. left. split; [assumption | lia].
    - right. right. unfold Int64.add in *.
      destruct (Z_le_gt_dec (- 2 ^ 63) (i + step)).
      + rewrite wrap_small in *
          by (unfold Int64.in_range, Int64.min_int, Int64.max_int; lia).
        split; lia.
      + unfold Int64.min_int in Hstep. lia. }
  destruct (64 <=? i); cbn [bind]; exact Hnext.
Qed.

Lemma getBits_terminates lo hi step :
  Int64.in_range lo -> Int64.in_range step -> step <> 0 ->
  getBits lo hi step <> Fault NoTermination.
Proof.
  intros Hlo Hsr Hstep. unfold getBits.
  destruct (Z.eqb_spec step 1) as [-> | Hne].
  - unfold shl. destruct (Int64.shl _ (Int64.add hi 1)); [| discriminate].
    cbn [bind]. destruct (Int64.shl _ lo); discriminate.
  - destruct (Z_lt_le_dec step 0).
    + apply getBits_loop_ends_down;
        [unfold Int64.in_range in Hsr; lia | assumption |].
      unfold getBits_fuel.
      destruct (Z_lt_le_dec hi lo); [left; assumption |].
      destruct (Z_lt_le_dec lo 0); [right; left; split; [assumption | lia] |].
      right. right. split; lia.
    + apply getBits_loop_ends_up;
        [unfold Int64.in_range in Hsr; lia | assumption |].
      unfold getBits_fuel.
      destruct (Z_lt_le_dec hi lo); [left; assumption |].
      right. right. lia.
Qed.

Lemma getBits_step_zero_loops lo hi :
  0 <= lo <= hi -> Int64.in_range lo ->
  getBits lo hi 0 = Fault NoTermination.
Proof.
  intros H Hr. unfold getBits. change (0 =? 1) with false. cbv iota.
  assert (G : forall fuel bits,
             getBits_loop fuel lo hi 0 bits = Fault NoTermination).
  { induction fuel as [| fuel IH]; intros bits; cbn [getBits_loop];
      destruct (Z.leb_spec lo hi); try lia; [reflexivity |].
    unfold shl, Int64.shl. destruct (Z.ltb_spec lo 0); [lia |].
    assert (E : Int64.add lo 0 = lo).
    { unfold Int64.add. rewrite Z.add_0_r. apply wrap_small. assumption. }
    destruct (64 <=? lo); cbn [bind]; rewrite E; apply IH. }
  apply G.
Qed.

(** ** The slots of [expandFields] *)

Lemma expandFields_no_fields options :
  has options Flag.Second = false ->
  expandFields [] options = Ok (expand_slots [] options places defaults).
Proof.
  intros H. rewrite expand_slots_nil by reflexivity.
  unfold expandFields, places. rewrite expandFields_loop_cons, H. reflexivity.
Qed.

(** * The properties of the specification *)

(** C1 (as stated, refuted): [@weekly] is accepted by the standard parser
    and its schedule has a nonzero repeat field, [RepeatDate = 1001], next
    to nonzero bit masks; it is neither a field schedule with all repeat
    fields zero nor an interval schedule with all bit masks zero. *)
Lemma weekly_both_populated :
  ParseStandard asciiToLower ParseDuration_whole "@weekly"
  = Ok (fieldSchedule 1 1 1 (all_bits dom) (all_bits months) 1 1001) /\
  ~ field_or_interval (fieldSchedule 1 1 1 (all_bits dom) (all_bits months) 1 1001).
Proof.
  split; [vm_compute; reflexivity |].
  unfold field_or_interval, repeat_free, bitmasks_zero. simpl.
  intros [(_ & _ & H) | (H & _)]; discriminate.
Qed.

(** C1 (amended): every schedule that [Parser.Parse] returns has no
    location and one of three shapes: all three repeat fields zero (the
    schedules parsed from fields); or six nonzero bit masks with
    [RepeatDate = 1001] and the other two repeat fields zero (the named
    descriptors); or six zero bit masks with at most one repeat field
    nonzero ([@every]). *)
Theorem Parse_schedule_shapes ToLower ParseDuration (p : Parser) (spec : string)
  (s : Schedule) :
  Parser_Parse ToLower ParseDuration p spec = Ok s ->
  location s = None /\
  (repeat_free s \/
   (bitmasks_nonzero s /\
    RepeatHour s = 0 /\ RepeatMin s = 0 /\ RepeatDate s = 1001) \/
   (bitmasks_zero s /\ one_repeat_field s)).
Proof.
  unfold Parser_Parse.
  destruct (len spec =? 0); [discriminate |].
  destruct (starts_with_at spec && has (options p) Flag.Descriptor).
  - intros H. split.
    + revert H. unfold parseDescriptor.
      repeat match goal with
      | |- context [if ?b then _ else _] => destruct b
      | |- context [match ?o with Some _ => _ | None => _ end] => destruct o
      end; try discriminate; try (intros [= <-]; reflexivity).
    + right. eapply parseDescriptor_shapes. exact H.
  - match goal with |- context [if ?b then _ else _] => destruct b end.
    { destruct (_ =? _); discriminate. }
    repeat match goal with
    | |- context [bind ?r _] => destruct r; cbn [bind]; try discriminate
    end.
    intros [= <-]. split; [reflexivity |]. left. unfold repeat_free. simpl. tauto.
Qed.

Lemma Parse_schedule_shapes_witness :
  Parser_Parse asciiToLower ParseDuration_whole standardParser "@every 90m"
  = Ok (intervalSchedule 2 0 0) /\
  (location (intervalSchedule 2 0 0) = None /\
   (repeat_free (intervalSchedule 2 0 0) \/
    (bitmasks_nonzero (intervalSchedule 2 0 0) /\
     RepeatHour (intervalSchedule 2 0 0) = 0 /\
     RepeatMin (intervalSchedule 2 0 0) = 0 /\
     RepeatDate (intervalSchedule 2 0 0) = 1001) \/
    (bitmasks_zero (intervalSchedule 2 0 0) /\
     one_repeat_field (intervalSchedule 2 0 0)))).
Proof.
  assert (H : Parser_Parse asciiToLower ParseDuration_whole standardParser
                "@every 90m" = Ok (intervalSchedule 2 0 0))
    by (vm_compute; reflexivity).
  exact (conj H (Parse_schedule_shapes asciiToLower ParseDuration_whole
                   standardParser "@every 90m" (intervalSchedule 2 0 0) H)).
Defined.

(** C2 (the code falls short of it): over the bounds [[0,10]], "5/2" sets
    exactly the bits 5, 7 and 9 and "1-5/2" exactly the bits 1, 3 and 5;
    but a single value with a step does not always yield the bits N,
    N+step, ... up to the maximum: for "1/9223372036854775807" the sum
    [i += step] overflows and [getBits] panics on a negative shift count,
    where the specification gives the bit 1. The standard parser panics likewise on
    such a minute field. *)
Theorem getRange_single_step_overflow_panics
  (ToLower : string -> string) (ParseDuration : string -> option Z) :
  getRange ToLower "5/2" bounds_0_10 = Ok (2 ^ 5 + 2 ^ 7 + 2 ^ 9) /\
  getRange ToLower "1-5/2" bounds_0_10 = Ok (2 ^ 1 + 2 ^ 3 + 2 ^ 5) /\
  getRange ToLower "1/9223372036854775807" bounds_0_10 = Fault NegativeShift /\
  ParseStandard ToLower ParseDuration "1/9223372036854775807 * * * *"
  = Fault NegativeShift.
Proof. repeat split; vm_compute; reflexivity. Qed.

(** C3: [@every] followed by a duration text that [time.ParseDuration]
    reads as [d] gives a schedule of zero bit masks with one repeat field
    set: the minutes [int64(math.Ceil(d.Minutes()))] when [d] is below an
    hour, the hours [int64(math.Ceil(d.Hours()))] from an hour up to a day,
    the days [int64(math.Ceil(d.Hours() / 24))] from a day on; and
    "@every 90m" gives 2 hours. *)
Theorem parseDescriptor_every (ParseDuration : string -> option Z)
  (text : string) (d : Z) :
  ParseDuration text = Some d ->
  (d < Duration.Hour ->
   parseDescriptor ParseDuration ("@every " +:+ text)
   = Ok (intervalSchedule 0 (ceil_int64 (Duration.Minutes d)) 0)) /\
  (Duration.Hour <= d < Duration.Hour * 24 ->
   parseDescriptor ParseDuration ("@every " +:+ text)
   = Ok (intervalSchedule (ceil_int64 (Duration.Hours d)) 0 0)) /\
  (Duration.Hour * 24 <= d ->
   parseDescriptor ParseDuration ("@every " +:+ text)
   = Ok (intervalSchedule 0 0
           (ceil_int64 (Float64.div (Duration.Hours d) (Float64.of_int 24))))) /\
  (ParseDuration "90m" = Some (90 * Duration.Minute) ->
   parseDescriptor ParseDuration "@every 90m" = Ok (intervalSchedule 2 0 0)).
Proof.
  intros Hd.
  assert (Hstep : forall t dd, ParseDuration t = Some dd ->
    parseDescriptor ParseDuration ("@every " +:+ t)
    = if dd <? Duration.Hour
      then Ok (intervalSchedule 0 (ceil_int64 (Duration.Minutes dd)) 0)
      else if dd <? Duration.Hour * 24
      then Ok (intervalSchedule (ceil_int64 (Duration.Hours dd)) 0 0)
      else Ok (intervalSchedule 0 0
             (ceil_int64 (Float64.div (Duration.Hours dd) (Float64.of_int 24))))).
  { intros t dd Ht. unfold parseDescriptor.
    change (String.eqb ("@every " +:+ t) "@yearly") with false.
    change (String.eqb ("@every " +:+ t) "@annually") with false.
    change (String.eqb ("@every " +:+ t) "@monthly") with false.
    change (String.eqb ("@every " +:+ t) "@weekly") with false.
    change (String.eqb ("@every " +:+ t) "@daily") with false.
    change (String.eqb ("@every " +:+ t) "@midnight") with false.
    change (String.eqb ("@every " +:+ t) "@hourly") with false.
    cbv beta iota delta [orb].
    destruct (every_prefix t) as [Hp Hdrop]. rewrite Hp, Hdrop, Ht.
    reflexivity. }
  repeat split.
  - intros H. rewrite (Hstep _ _ Hd).
    destruct (Z.ltb_spec d Duration.Hour); [reflexivity | lia].
  - intros H. rewrite (Hstep _ _ Hd).
    destruct (Z.ltb_spec d Duration.Hour); [lia |].
    destruct (Z.ltb_spec d (Duration.Hour * 24)); [reflexivity | lia].
  - intros H. rewrite (Hstep _ _ Hd).
    destruct (Z.ltb_spec d Duration.Hour);
      [unfold Duration.Hour, Duration.Minute in *; lia |].
    destruct (Z.ltb_spec d (Duration.Hour * 24)); [lia | reflexivity].
  - intros H.
    change "@every 90m" with ("@every " +:+ "90m").
    rewrite (Hstep "90m" _ H). vm_compute. reflexivity.
Qed.

Lemma parseDescriptor_every_witness :
  ParseDuration_whole "90m" = Some 5400000000000 /\
  ((5400000000000 < Duration.Hour ->
    parseDescriptor ParseDuration_whole ("@every " +:+ "90m")
    = Ok (intervalSchedule 0 (ceil_int64 (Duration.Minutes 5400000000000)) 0)) /\
   (Duration.Hour <= 5400000000000 < Duration.Hour * 24 ->
    parseDescriptor ParseDuration_whole ("@every " +:+ "90m")
    = Ok (intervalSchedule (ceil_int64 (Duration.Hours 5400000000000)) 0 0)) /\
   (Duration.Hour * 24 <= 5400000000000 ->
    parseDescriptor ParseDuration_whole ("@every " +:+ "90m")
    = Ok (intervalSchedule 0 0
            (ceil_int64 (Float64.div (Duration.Hours 5400000000000)
                           (Float64.of_int 24))))) /\
   (ParseDuration_whole "90m" = Some (90 * Duration.Minute) ->
    parseDescriptor ParseDuration_whole "@every 90m"
    = Ok (intervalSchedule 2 0 0))).
Proof.
  assert (H : ParseDuration_whole "90m" = Some 5400000000000)
    by (vm_compute; reflexivity).
  exact (conj H (parseDescriptor_every ParseDuration_whole "90m"
                   5400000000000 H)).
Defined.

(** C4: the named descriptors give the schedules of the table: second,
    minute and hour the bit of the field minimum (the hour of [@hourly]
    the full range with the star bit), day of month, month and day of week
    the minimum bit or the full range with the star bit, and the marker
    1001 as repeat date; [@weekly] has the day of week bit 0 only. For each
    field the minimum bit is the bit [r.min] alone and the full range is
    the bits [r.min] to [r.max] with bit 63, as [all] computes it. *)
Theorem parseDescriptor_table (ParseDuration : string -> option Z) :
  let yearly :=
    fieldSchedule (min_bit seconds) (min_bit minutes) (min_bit hours)
      (min_bit dom) (min_bit months) (all_bits dow) 1001 in
  let monthly :=
    fieldSchedule (min_bit seconds) (min_bit minutes) (min_bit hours)
      (min_bit dom) (all_bits months) (all_bits dow) 1001 in
  let weekly :=
    fieldSchedule (min_bit seconds) (min_bit minutes) (min_bit hours)
      (all_bits dom) (all_bits months) (min_bit dow) 1001 in
  let daily :=
    fieldSchedule (min_bit seconds) (min_bit minutes) (min_bit hours)
      (all_bits dom) (all_bits months) (all_bits dow) 1001 in
  let hourly :=
    fieldSchedule (min_bit seconds) (min_bit minutes) (all_bits hours)
      (all_bits dom) (all_bits months) (all_bits dow) 1001 in
  parseDescriptor ParseDuration "@yearly" = Ok yearly /\
  parseDescriptor ParseDuration "@annually" = Ok yearly /\
  parseDescriptor ParseDuration "@monthly" = Ok monthly /\
  parseDescriptor ParseDuration "@weekly" = Ok weekly /\
  parseDescriptor ParseDuration "@daily" = Ok daily /\
  parseDescriptor ParseDuration "@midnight" = Ok daily /\
  parseDescriptor ParseDuration "@hourly" = Ok hourly /\
  (Dow weekly = 1 /\ RepeatDate weekly <> 0) /\
  (forall r, In r [seconds; minutes; hours; dom; months; dow] ->
     all r = Ok (all_bits r) /\
     forall j, 0 <= j < 64 ->
       Z.testbit (min_bit r) j = (j =? min r) /\
       Z.testbit (all_bits r) j
       = ((min r <=? j) && (j <=? max r)) || (j =? 63)).
Proof.
  cbv zeta.
  do 7 (split; [vm_compute; reflexivity |]).
  split; [split; [reflexivity | discriminate] |].
  intros r Hr.
  assert (Hwf : 0 <= min r <= max r /\ max r <= 63).
  { simpl in Hr. intuition (subst r; simpl; lia). }
  split.
  - simpl in Hr. intuition (subst r; vm_compute; reflexivity).
  - intros j Hj. split.
    + apply min_bit_bits; lia.
    + apply all_bits_bits; lia.
Qed.

Lemma parseDescriptor_table_witness :
  parseDescriptor ParseDuration_whole "@weekly"
  = Ok (fieldSchedule (min_bit seconds) (min_bit minutes) (min_bit hours)
          (all_bits dom) (all_bits months) (min_bit dow) 1001).
Proof.
  exact (proj1 (proj2 (proj2 (proj2
           (parseDescriptor_table ParseDuration_whole))))).
Defined.

(** C5: for bounds within the 64 bits of the word, [getRange] on a bare
    "*" or "?" returns the mask whose bits are [r.min] to [r.max] and the
    star bit 63, and no other. *)
Theorem getRange_wildcard ToLower (r : bounds) (expr : string) :
  0 <= min r <= max r -> max r <= 63 ->
  expr = "*" \/ expr = "?" ->
  exists v, getRange ToLower expr r = Ok v /\ Int64.in_range v /\
    forall j, 0 <= j < 64 ->
      Z.testbit v j = ((min r <=? j) && (j <=? max r)) || (j =? 63).
Proof.
  intros Hr Hmax Hexpr. unfold getRange.
  assert (Hops : getRange_operands ToLower expr r
                 = Ok (min r, max r, 1, Int64.of_uint64 starBit)).
  { destruct Hexpr as [-> | ->]; apply getRange_wildcard_operands. }
  rewrite Hops. simpl.
  destruct (getRange_bits_ok expr r (min r) (max r) 1 (Int64.of_uint64 starBit))
    as (v & Hv & Hvr & Hvt); try lia.
  { unfold Int64.max_int. lia. }
  { apply wrap_in_range. }
  exists v. split; [assumption |]. split; [assumption |].
  intros j Hj. rewrite Hvt, starBit_bits by lia.
  unfold in_prog. rewrite Z.mod_1_r. simpl. rewrite andb_true_r. reflexivity.
Qed.

Lemma getRange_wildcard_witness :
  (0 <= min dom <= max dom) /\ max dom <= 63 /\ ("*" = "*" \/ "*" = "?") /\
  exists v, getRange asciiToLower "*" dom = Ok v /\ Int64.in_range v /\
    forall j, 0 <= j < 64 ->
      Z.testbit v j = ((min dom <=? j) && (j <=? max dom)) || (j =? 63).
Proof.
  assert (H1 : 0 <= min dom <= max dom) by (simpl; lia).
  assert (H2 : max dom <= 63) by (simpl; lia).
  assert (H3 : "*" = "*" \/ "*" = "?") by (left; reflexivity).
  exact (conj H1 (conj H2 (conj H3
           (getRange_wildcard asciiToLower dom "*" H1 H2 H3)))).
Defined.

(** C6 (as stated, refuted): "-1" in the minute field is not rejected as a
    negative number: the hyphen is read as the range separator, and the
    empty lower operand fails the integer parse. *)
Lemma minus_one_is_not_NegativeNumber :
  getRange asciiToLower "-1" minutes = Err (IntParseFailure "" ErrSyntax) /\
  getRange asciiToLower "-1" minutes <> Err (NegativeNumber (-1) "-1").
Proof. split; [vm_compute; reflexivity | vm_compute; discriminate]. Qed.

(** C6 (amended): once the operands of a range are parsed, [getRange]
    checks them in this order, each check with its own error: start below
    the minimum, end above the maximum, start beyond end, step 0. A
    negative step is rejected before these checks, when the step is parsed,
    as a negative number; "60" in the minute field is above the maximum;
    and "-1" is a range with an empty lower operand, which fails the
    integer parse. *)
Theorem getRange_validation_order ToLower expr r start end_ step extra :
  getRange_operands ToLower expr r = Ok (start, end_, step, extra) ->
  ((start < min r ->
    getRange ToLower expr r = Err (RangeBelowMinimum start (min r) expr)) /\
   (min r <= start -> max r < end_ ->
    getRange ToLower expr r = Err (RangeAboveMaximum end_ (max r) expr)) /\
   (min r <= start -> end_ <= max r -> end_ < start ->
    getRange ToLower expr r = Err (RangeInverted start end_ expr)) /\
   (min r <= start <= end_ -> end_ <= max r -> step = 0 ->
    getRange ToLower expr r = Err (NonPositiveStep expr))) /\
  (forall range stxt n ops,
     no_byte "/" range = true ->
     getRange_operands ToLower range r = Ok ops ->
     Atoi stxt = inl n -> n < 0 ->
     getRange ToLower (range +:+ "/" +:+ stxt) r
     = Err (NegativeNumber n stxt)) /\
  getRange ToLower "60" minutes = Err (RangeAboveMaximum 60 59 "60") /\
  getRange ToLower "*/-1" minutes = Err (NegativeNumber (-1) "-1") /\
  mustParseInt "-1" = Err (NegativeNumber (-1) "-1") /\
  getRange ToLower "-1" minutes = Err (IntParseFailure "" ErrSyntax).
Proof.
  intros Hops. split; [| split; [| repeat split; vm_compute; reflexivity]].
  - unfold getRange. rewrite Hops. cbn [bind]. unfold getRange_bits.
    repeat split; intros.
    + destruct (Z.ltb_spec start (min r)); [reflexivity | lia].
    + destruct (Z.ltb_spec start (min r)); [lia |].
      destruct (Z.gtb_spec end_ (max r)); [reflexivity | lia].
    + destruct (Z.ltb_spec start (min r)); [lia |].
      destruct (Z.gtb_spec end_ (max r)); [lia |].
      destruct (Z.gtb_spec start end_); [reflexivity | lia].
    + destruct (Z.ltb_spec start (min r)); [lia |].
      destruct (Z.gtb_spec end_ (max r)); [lia |].
      destruct (Z.gtb_spec start end_); [lia |].
      subst step. reflexivity.
  - intros range stxt n ops. apply getRange_negative_step.
Qed.

Lemma getRange_validation_order_witness :
  getRange_operands asciiToLower "60" minutes = Ok (60, 60, 1, 0) /\
  getRange asciiToLower "60" minutes = Err (RangeAboveMaximum 60 59 "60").
Proof.
  assert (H : getRange_operands asciiToLower "60" minutes = Ok (60, 60, 1, 0))
    by (vm_compute; reflexivity).
  split; [exact H |].
  apply (proj1 (proj2 (proj1
           (getRange_validation_order asciiToLower "60" minutes 60 60 1 0 H))));
    simpl; lia.
Defined.

(** C7: [expandFields] lays the fields out in the six slots second,
    minute, hour, day of month, month, day of week: walking the places in
    this order, each enabled place takes the next field while one is left,
    every other slot keeps its default, "0" for the first three and "*"
    for the last three. The standard parser on "0 0 15 * *" thus parses
    "0", "0", "0", "15", "*", "*": second, minute and hour the bit 0, day
    of month the bit 15, month and day of week the full range with the
    star bit. *)
Theorem expandFields_canonical_layout
  (ToLower : string -> string) (ParseDuration : string -> option Z)
  (fields : list string) (opts : Z) :
  fields <> [] \/ has opts Flag.Second = false ->
  expandFields fields opts
  = Ok (expand_slots fields opts places defaults) /\
  defaults = ["0"; "0"; "0"; "*"; "*"; "*"] /\
  Fields "0 0 15 * *" = ["0"; "0"; "15"; "*"; "*"] /\
  expandFields ["0"; "0"; "15"; "*"; "*"] (options standardParser)
  = Ok ["0"; "0"; "0"; "15"; "*"; "*"] /\
  ParseStandard ToLower ParseDuration "0 0 15 * *"
  = Ok (fieldSchedule (2 ^ 0) (2 ^ 0) (2 ^ 0) (2 ^ 15)
          (all_bits months) (all_bits dow) 0).
Proof.
  intros H. split; [| repeat split; vm_compute; reflexivity].
  destruct fields as [| f fields].
  - destruct H as [H | H]; [congruence |]. apply expandFields_no_fields, H.
  - apply expandFields_slots. discriminate.
Qed.

Lemma expandFields_canonical_layout_witness :
  (["0"; "0"; "15"; "*"; "*"] <> [] \/
   has (options standardParser) Flag.Second = false) /\
  expandFields ["0"; "0"; "15"; "*"; "*"] (options standardParser)
  = Ok (expand_slots ["0"; "0"; "15"; "*"; "*"] (options standardParser)
          places defaults).
Proof.
  assert (H : ["0"; "0"; "15"; "*"; "*"] <> [] \/
              has (options standardParser) Flag.Second = false)
    by (right; reflexivity).
  exact (conj H (proj1 (expandFields_canonical_layout asciiToLower
                          ParseDuration_whole _ _ H))).
Defined.

(** C8: for [0 <= lo <= hi <= 63] the closed form of the step-1 branch of
    [getBits] and the loop that sets the bits one at a time return the
    same mask, whose bits are exactly [lo] to [hi]; [hi = 63], where the
    shift count is 64, is included. *)
Theorem getBits_closed_form_is_loop lo hi :
  0 <= lo <= hi -> hi <= 63 ->
  exists v, getBits lo hi 1 = Ok v /\ getBits_naive lo hi = Ok v /\
    Int64.in_range v /\
    forall j, 0 <= j < 64 -> Z.testbit v j = (lo <=? j) && (j <=? hi).
Proof.
  intros Hlo Hhi.
  destruct (getBits_bits lo hi 1) as (v & Hv & Hvr & Hvt); try lia.
  { unfold Int64.max_int. lia. }
  destruct (getBits_loop_bits (getBits_fuel lo hi) lo hi 1 0)
    as (w & Hw & Hwr & Hwt); try lia.
  { unfold Int64.max_int. lia. }
  { unfold getBits_fuel. lia. }
  { unfold Int64.in_range, Int64.min_int, Int64.max_int. lia. }
  assert (E : w = v).
  { apply int64_ext; try assumption.
    intros j Hj. rewrite Hwt, Hvt, Z.bits_0 by lia. reflexivity. }
  subst w. exists v. repeat split; try assumption; try apply Hvr.
  intros j Hj. rewrite Hvt by lia. unfold in_prog.
  rewrite Z.mod_1_r. simpl. apply andb_true_r.
Qed.

Lemma getBits_closed_form_is_loop_witness :
  0 <= 5 <= 63 /\ 63 <= 63 /\
  exists v, getBits 5 63 1 = Ok v /\ getBits_naive 5 63 = Ok v /\
    Int64.in_range v /\
    forall j, 0 <= j < 64 -> Z.testbit v j = (5 <=? j) && (j <=? 63).
Proof.
  assert (H1 : 0 <= 5 <= 63) by lia.
  assert (H2 : 63 <= 63) by lia.
  exact (conj H1 (conj H2 (getBits_closed_form_is_loop 5 63 H1 H2))).
Defined.

(** C9 (the code falls short of it): "*/s" does not return a mask for
    every step [s > 1]: with the greatest [int64] as step, on the bounds of
    the day of month and of the month, whose minimum is 1, [i += step]
    overflows to a negative [i] and [getBits] panics on the shift, where
    the specification gives the bit 1 and the star bit. The standard parser panics
    on such a day-of-month field. *)
Theorem getRange_star_step_overflow_panics
  (ToLower : string -> string) (ParseDuration : string -> option Z) :
  mustParseInt "9223372036854775807" = Ok Int64.max_int /\
  getRange ToLower "*/9223372036854775807" dom = Fault NegativeShift /\
  getRange ToLower "*/9223372036854775807" months = Fault NegativeShift /\
  ParseStandard ToLower ParseDuration "0 0 */9223372036854775807 * *"
  = Fault NegativeShift.
Proof. repeat split; vm_compute; reflexivity. Qed.

(** C10: [getField] drops the empty pieces between commas: the empty text
    and a text of commas only give the mask 0 without an error, and a
    doubled or a trailing comma changes nothing, so "1,,2" parses as
    "1,2". *)
Theorem getField_drops_empty_pieces (ToLower : string -> string) (r : bounds) :
  getField ToLower "" r = Ok 0 /\
  (forall n, getField ToLower (commas n) r = Ok 0) /\
  (forall a b,
     getField ToLower (a +:+ ",," +:+ b) r = getField ToLower (a +:+ "," +:+ b) r) /\
  (forall a, getField ToLower (a +:+ ",") r = getField ToLower a r) /\
  getField ToLower "1,,2" r = getField ToLower "1,2" r.
Proof.
  unfold getField. repeat split.
  - intros n. rewrite FieldsFunc_commas. reflexivity.
  - intros a b. rewrite FieldsFunc_double_comma. reflexivity.
  - intros a. rewrite FieldsFunc_trailing_comma. reflexivity.
Qed.

(** * Further properties of the parser *)

(** ** More on [getBits] *)

Lemma getBits_one_round lo hi step :
  0 <= lo <= hi -> hi <= 63 ->
  Int64.max_int - hi < step <= Int64.max_int - lo ->
  exists v, getBits lo hi step = Ok v /\ Int64.in_range v /\
    forall j, 0 <= j < 64 -> Z.testbit v j = in_prog lo hi step j.
Proof.
  intros Hlo Hhi Hstep. unfold Int64.max_int in Hstep. unfold getBits.
  destruct (Z.eqb_spec step 1) as [-> | _]; [lia |].
  assert (Hfuel : exists f, getBits_fuel lo hi = S (S f)).
  { unfold getBits_fuel. exists (Z.to_nat (Z.max (hi - lo) lo)).
    replace (Z.max (hi - lo) lo + 2)
      with (Z.succ (Z.succ (Z.max (hi - lo) lo))) by lia.
    rewrite !Z2Nat.inj_succ by lia. reflexivity. }
  destruct Hfuel as (f & ->). cbn [getBits_loop].
  destruct (Z.leb_spec lo hi); [| lia].
  destruct (shl_one lo ltac:(lia)) as (b & -> & Hbr & Hbt). cbn [bind].
  assert (Hadd : Int64.add lo step = lo + step).
  { apply wrap_small. unfold Int64.in_range, Int64.min_int, Int64.max_int. lia. }
  rewrite Hadd. destruct (Z.leb_spec (lo + step) hi); [lia |].
  eexists. split; [reflexivity |]. split.
  - apply lor_in_range; [| assumption].
    unfold Int64.in_range, Int64.min_int, Int64.max_int. lia.
  - intros j Hj. rewrite Z.lor_spec, Z.bits_0, Hbt by lia. simpl.
    unfold in_prog.
    destruct (Z.eqb_spec j lo) as [-> | Hne].
    + rewrite Z.sub_diag, Z.mod_0_l by lia.
      destruct (Z.leb_spec lo lo), (Z.leb_spec lo hi); try lia; reflexivity.
    + destruct (Z.leb_spec lo j), (Z.leb_spec j hi); simpl; try reflexivity.
      rewrite Z.mod_small by lia. symmetry. apply Z.eqb_neq. lia.
Qed.

Lemma getBits_cases lo hi step :
  0 <= lo <= hi -> hi <= 63 -> 1 <= step <= Int64.max_int ->
  (step <= Int64.max_int - lo /\
   exists v, getBits lo hi step = Ok v /\ Int64.in_range v /\
     forall j, 0 <= j < 64 -> Z.testbit v j = in_prog lo hi step j) \/
  (Int64.max_int - lo < step /\ getBits lo hi step = Fault NegativeShift).
Proof.
  intros Hlo Hhi Hstep.
  destruct (Z_le_gt_dec step (Int64.max_int - lo)) as [Hok | Hov].
  - left. split; [assumption |].
    destruct (Z_le_gt_dec step (Int64.max_int - hi)).
    + apply getBits_bits; lia.
    + apply getBits_one_round; lia.
  - right. split; [lia |]. apply getBits_step_overflow; lia.
Qed.

(** X1: on a range [0 <= lo <= hi <= 63] with a step from 1 to the
    greatest [int64], [getBits] returns the mask with exactly the bits
    [lo], [lo + step], ... up to [hi] when [lo + step] does not overflow,
    and panics on a negative shift count when it does. *)
Theorem getBits_spec lo hi step :
  0 <= lo <= hi -> hi <= 63 -> 1 <= step <= Int64.max_int ->
  (step <= Int64.max_int - lo ->
   exists v, getBits lo hi step = Ok v /\ Int64.in_range v /\
     forall j, 0 <= j < 64 -> Z.testbit v j = in_prog lo hi step j) /\
  (Int64.max_int - lo < step -> getBits lo hi step = Fault NegativeShift).
Proof.
  intros Hlo Hhi Hstep.
  destruct (getBits_cases lo hi step Hlo Hhi Hstep) as [[Hle Hok] | [Hgt Hf]].
  - split; [intros _; exact Hok |]. intros Hov. lia.
  - split; [| intros _; exact Hf]. intros Hov. lia.
Qed.

Lemma getBits_spec_witness :
  0 <= 1 <= 31 /\ 31 <= 63 /\ 1 <= 7 <= Int64.max_int /\
  7 <= Int64.max_int - 1 /\
  exists v, getBits 1 31 7 = Ok v /\ Int64.in_range v /\
    forall j, 0 <= j < 64 -> Z.testbit v j = in_prog 1 31 7 j.
Proof.
  assert (H1 : 0 <= 1 <= 31) by lia.
  assert (H2 : 31 <= 63) by lia.
  assert (H3 : 1 <= 7 <= Int64.max_int) by (unfold Int64.max_int; lia).
  assert (H4 : 7 <= Int64.max_int - 1) by (unfold Int64.max_int; lia).
  exact (conj H1 (conj H2 (conj H3 (conj H4
           (proj1 (getBits_spec 1 31 7 H1 H2 H3) H4))))).
Defined.

(** X2: [getBits] fails to terminate exactly when the step is 0 and the
    range [0 <= lo <= hi] is not empty; this is the case that [getRange]
    rejects before calling it. *)
Theorem getBits_loops_iff_step_zero lo hi step :
  Int64.in_range lo -> Int64.in_range step ->
  (getBits lo hi step = Fault NoTermination <-> step = 0 /\ 0 <= lo <= hi).
Proof.
  intros Hlo Hstep. split.
  - intros H. destruct (Z.eq_dec step 0) as [-> | Hne].
    + split; [reflexivity |].
      unfold getBits in H. change (0 =? 1) with false in H. cbv iota in H.
      destruct (Z_lt_le_dec hi lo) as [Hlt | Hle].
      { destruct (getBits_fuel lo hi); cbn [getBits_loop] in H;
          destruct (Z.leb_spec lo hi); try lia; discriminate. }
      destruct (Z_lt_le_dec lo 0) as [Hneg | Hpos]; [| lia].
      assert (Hfuel : exists f, getBits_fuel lo hi = S f).
      { unfold getBits_fuel. exists (Z.to_nat (Z.max (hi - lo) lo + 1)).
        rewrite <- Z2Nat.inj_succ by lia. f_equal. lia. }
      destruct Hfuel as (f & Hf). rewrite Hf in H. cbn [getBits_loop] in H.
      destruct (Z.leb_spec lo hi); [| lia].
      unfold shl, Int64.shl in H.
      destruct (Z.ltb_spec lo 0); [discriminate | lia].
    + exfalso. exact (getBits_terminates lo hi step Hlo Hstep Hne H).
  - intros [-> H]. apply getBits_step_zero_loops; assumption.
Qed.

Lemma getBits_loops_iff_step_zero_witness :
  Int64.in_range 3 /\ Int64.in_range 0 /\
  (getBits 3 9 0 = Fault NoTermination <-> 0 = 0 /\ 0 <= 3 <= 9).
Proof.
  assert (H1 : Int64.in_range 3)
    by (unfold Int64.in_range, Int64.min_int, Int64.max_int; lia).
  assert (H2 : Int64.in_range 0)
    by (unfold Int64.in_range, Int64.min_int, Int64.max_int; lia).
  exact (conj H1 (conj H2 (getBits_loops_iff_step_zero 3 9 0 H1 H2))).
Defined.

(** ** More on [getRange] *)

Lemma Split_cons s sep : exists piece pieces, Split s sep = piece :: pieces.
Proof.
  induction s as [| c s (p & ps & IH)]; simpl; [eauto |].
  destruct (Ascii.eqb c sep); [eauto |]. rewrite IH. eauto.
Qed.

Lemma mustParseInt_no_fault expr f : mustParseInt expr <> Fault f.
Proof.
  unfold mustParseInt. destruct (Atoi expr); [| discriminate].
  destruct (_ <? 0); discriminate.
Qed.

Lemma parseIntOrName_no_fault ToLower expr names f :
  parseIntOrName ToLower expr names <> Fault f.
Proof.
  unfold parseIntOrName. destruct names as [table |].
  - destruct (table !! ToLower expr); [discriminate | apply mustParseInt_no_fault].
  - apply mustParseInt_no_fault.
Qed.

Lemma getRange_operands_no_fault ToLower expr r f :
  getRange_operands ToLower expr r <> Fault f.
Proof.
  unfold getRange_operands.
  destruct (Split_cons expr "/") as (range & steps & ->).
  cbn [index lookup list_lookup bind].
  destruct (Split_cons range "-") as (low & highs & ->).
  cbn [index lookup list_lookup bind length].
  assert (Hstep : forall (start end_ extra : Z),
    match S (length steps) with
    | 1%nat => Ok (start, end_, 1, extra)
    | 2%nat =>
        let* stepText := index (range :: steps) 1 in
        let* step := mustParseInt stepText in
        Ok (start, if (S (length highs) =? 1)%nat then max r else end_,
            step, extra)
    | _ => Err (TooManySlashes expr)
    end <> Fault f).
  { intros start end_ extra. destruct steps as [| st [| st' steps]];
      cbn [length index lookup list_lookup bind]; try discriminate.
    pose proof (mustParseInt_no_fault st f) as H.
    destruct (mustParseInt st); cbn [bind]; try discriminate. congruence. }
  destruct (is_wildcard low); cbn [bind]; [apply Hstep |].
  pose proof (parseIntOrName_no_fault ToLower low (names r) f) as Hlow.
  destruct (parseIntOrName ToLower low (names r)) as [start | e | f'];
    cbn [bind]; try discriminate; [| congruence].
  destruct highs as [| high [| high' highs]];
    cbn [length index lookup list_lookup bind]; try discriminate.
  - apply Hstep.
  - pose proof (parseIntOrName_no_fault ToLower high (names r) f) as Hhigh.
    destruct (parseIntOrName ToLower high (names r)) as [end_ | e | f'];
      cbn [bind]; try discriminate; [| congruence].
    apply Hstep.
Qed.

Lemma getRange_operands_step ToLower expr r start end_ step extra :
  getRange_operands ToLower expr r = Ok (start, end_, step, extra) ->
  0 <= step <= Int64.max_int /\
  (extra = 0 \/ extra = Int64.of_uint64 starBit).
Proof.
  unfold getRange_operands.
  destruct (Split_cons expr "/") as (range & steps & ->).
  cbn [index lookup list_lookup bind].
  destruct (Split_cons range "-") as (low & highs & ->).
  cbn [index lookup list_lookup bind length].
  intros H.
  assert (Hstep : forall (s0 e0 x0 : Z),
    (x0 = 0 \/ x0 = Int64.of_uint64 starBit) ->
    match S (length steps) with
    | 1%nat => Ok (s0, e0, 1, x0)
    | 2%nat =>
        let* stepText := index (range :: steps) 1 in
        let* step := mustParseInt stepText in
        Ok (s0, if (S (length highs) =? 1)%nat then max r else e0, step, x0)
    | _ => Err (TooManySlashes expr)
    end = Ok (start, end_, step, extra) ->
    0 <= step <= Int64.max_int /\
    (extra = 0 \/ extra = Int64.of_uint64 starBit)).
  { intros s0 e0 x0 Hx. destruct steps as [| st [| st' steps]];
      cbn [length index lookup list_lookup bind]; try discriminate.
    - intros [= <- <- <- <-]. split; [unfold Int64.max_int; lia | exact Hx].
    - destruct (mustParseInt st) as [n | e | f'] eqn:Hn; cbn [bind];
        try discriminate.
      intros [= <- <- <- <-]. split; [| exact Hx].
      apply (mustParseInt_Ok _ _ Hn). }
  destruct (is_wildcard low); cbn [bind] in H.
  - eapply Hstep; [| exact H]. right. reflexivity.
  - destruct (parseIntOrName ToLower low (names r)) as [s0 | e | f'];
      cbn [bind] in H; try discriminate.
    destruct highs as [| high [| high' highs]];
      cbn [length index lookup list_lookup bind] in H; try discriminate.
    + eapply Hstep; [| exact H]. left. reflexivity.
    + destruct (parseIntOrName ToLower high (names r)) as [e0 | e | f'];
        cbn [bind] in H; try discriminate.
      eapply Hstep; [| exact H]. left. reflexivity.
Qed.

Lemma extra_bits extra j :
  extra = 0 \/ extra = Int64.of_uint64 starBit -> 0 <= j < 63 ->
  Z.testbit extra j = false.
Proof.
  intros [-> | ->] Hj; [apply Z.bits_0 |].
  rewrite starBit_bits by lia. apply Z.eqb_neq. lia.
Qed.

Lemma extra_in_range extra :
  extra = 0 \/ extra = Int64.of_uint64 starBit -> Int64.in_range extra.
Proof.
  intros [-> | ->]; [| apply wrap_in_range].
  unfold Int64.in_range, Int64.min_int, Int64.max_int. lia.
Qed.

(** What [getRange_bits] returns, case by case. *)
Lemma getRange_bits_cases expr r start end_ step extra :
  0 <= min r -> max r <= 63 -> 0 <= step <= Int64.max_int ->
  Int64.in_range extra ->
  (exists e, getRange_bits expr r start end_ step extra = Err e) \/
  (min r <= start <= end_ /\ end_ <= max r /\ 1 <= step /\
   ((step <= Int64.max_int - start /\
     exists v, getRange_bits expr r start end_ step extra = Ok v /\
       Int64.in_range v /\
       forall j, 0 <= j < 64 ->
         Z.testbit v j = in_prog start end_ step j || Z.testbit extra j) \/
    (Int64.max_int - start < step /\
     getRange_bits expr r start end_ step extra = Fault NegativeShift))).
Proof.
  intros Hmin Hmax Hstep Hx. unfold getRange_bits.
  destruct (Z.ltb_spec start (min r)); [left; eauto |].
  destruct (Z.gtb_spec end_ (max r)); [left; eauto |].
  destruct (Z.gtb_spec start end_); [left; eauto |].
  destruct (Z.eqb_spec step 0); [left; eauto |].
  right. repeat (split; [lia |]).
  destruct (getBits_cases start end_ step) as [(Hs & v & -> & Hvr & Hvt) | (Hs & ->)];
    try lia.
  - left. split; [assumption |]. cbn [bind]. eexists. split; [reflexivity |].
    split; [apply lor_in_range; assumption |].
    intros j Hj. rewrite Z.lor_spec, Hvt by lia. reflexivity.
  - right. split; [assumption | reflexivity].
Qed.

Lemma getRange_Ok_inv ToLower expr r v :
  0 <= min r -> max r <= 63 ->
  getRange ToLower expr r = Ok v ->
  exists start end_ step extra,
    min r <= start <= end_ /\ end_ <= max r /\ 1 <= step /\
    (extra = 0 \/ extra = Int64.of_uint64 starBit) /\
    Int64.in_range v /\
    forall j, 0 <= j < 64 ->
      Z.testbit v j = in_prog start end_ step j || Z.testbit extra j.
Proof.
  intros Hmin Hmax H. unfold getRange in H.
  destruct (getRange_operands ToLower expr r) as [[[[start end_] step] extra] | e | f]
    eqn:Hops; cbn [bind] in H; try discriminate.
  destruct (getRange_operands_step _ _ _ _ _ _ _ Hops) as [Hstep Hx].
  destruct (getRange_bits_cases expr r start end_ step extra Hmin Hmax Hstep
              (extra_in_range _ Hx))
    as [(e & He) | (Hs & He & Hst & [(Hov & w & Hw & Hwr & Hwt) | (Hov & Hf)])];
    try congruence.
  assert (w = v) as -> by congruence.
  exists start, end_, step, extra. repeat (split; [lia || assumption |]).
  exact Hwt.
Qed.

Lemma getRange_within ToLower expr r v :
  0 <= min r -> max r <= 63 ->
  getRange ToLower expr r = Ok v -> within r v.
Proof.
  intros Hmin Hmax H j Hj Hset.
  destruct (getRange_Ok_inv _ _ _ _ Hmin Hmax H)
    as (start & end_ & step & extra & Hs & He & _ & Hx & _ & Hbits).
  rewrite Hbits, (extra_bits extra j Hx Hj), orb_false_r in Hset by lia.
  unfold in_prog in Hset.
  apply andb_true_iff in Hset as [Hset _].
  apply andb_true_iff in Hset as [H1 H2].
  apply Z.leb_le in H1, H2. lia.
Qed.

(** X3: over bounds within the word, a mask that [getRange] returns is
    never 0, and its value bits are the progression of some start, end and
    step inside the bounds; no value bit outside the bounds is ever set. *)
Theorem getRange_sound ToLower expr r v :
  0 <= min r -> max r <= 63 ->
  getRange ToLower expr r = Ok v ->
  exists start end_ step,
    min r <= start <= end_ /\ end_ <= max r /\ 1 <= step /\
    Int64.in_range v /\ v <> 0 /\
    (forall j, 0 <= j < 63 -> Z.testbit v j = in_prog start end_ step j) /\
    (forall j, 0 <= j < 63 -> Z.testbit v j = true -> min r <= j <= max r).
Proof.
  intros Hmin Hmax H.
  destruct (getRange_Ok_inv _ _ _ _ Hmin Hmax H)
    as (start & end_ & step & extra & Hs & He & Hst & Hx & Hvr & Hbits).
  exists start, end_, step. repeat (split; [lia || assumption |]).
  split; [| split].
  - intros ->. specialize (Hbits start ltac:(lia)).
    rewrite Z.bits_0 in Hbits. unfold in_prog in Hbits.
    rewrite Z.sub_diag, Z.mod_0_l in Hbits by lia.
    destruct (Z.leb_spec start start), (Z.leb_spec start end_); try lia;
      simpl in Hbits; discriminate.
  - intros j Hj. rewrite Hbits, (extra_bits extra j Hx Hj) by lia.
    apply orb_false_r.
  - exact (getRange_within _ _ _ _ Hmin Hmax H).
Qed.

Lemma getRange_sound_witness :
  0 <= min dom /\ max dom <= 63 /\
  getRange asciiToLower "10-20/5" dom = Ok (2 ^ 10 + 2 ^ 15 + 2 ^ 20) /\
  exists start end_ step,
    min dom <= start <= end_ /\ end_ <= max dom /\ 1 <= step /\
    Int64.in_range (2 ^ 10 + 2 ^ 15 + 2 ^ 20) /\
    2 ^ 10 + 2 ^ 15 + 2 ^ 20 <> 0 /\
    (forall j, 0 <= j < 63 ->
       Z.testbit (2 ^ 10 + 2 ^ 15 + 2 ^ 20) j = in_prog start end_ step j) /\
    (forall j, 0 <= j < 63 ->
       Z.testbit (2 ^ 10 + 2 ^ 15 + 2 ^ 20) j = true ->
       min dom <= j <= max dom).
Proof.
  assert (H1 : 0 <= min dom) by (simpl; lia).
  assert (H2 : max dom <= 63) by (simpl; lia).
  assert (H3 : getRange asciiToLower "10-20/5" dom
               = Ok (2 ^ 10 + 2 ^ 15 + 2 ^ 20)) by (vm_compute; reflexivity).
  exact (conj H1 (conj H2 (conj H3
           (getRange_sound asciiToLower "10-20/5" dom _ H1 H2 H3)))).
Defined.

Lemma getRange_Fault_inv ToLower expr r f :
  0 <= min r -> max r <= 63 ->
  getRange ToLower expr r = Fault f ->
  f = NegativeShift /\
  exists start end_ step extra,
    getRange_operands ToLower expr r = Ok (start, end_, step, extra) /\
    min r <= start <= end_ /\ end_ <= max r /\
    Int64.max_int - start < step.
Proof.
  intros Hmin Hmax. unfold getRange.
  destruct (getRange_operands ToLower expr r) as [[[[start end_] step] extra] | e | f']
    eqn:Hops; cbn [bind]; [| discriminate |].
  - destruct (getRange_operands_step _ _ _ _ _ _ _ Hops) as [Hstep Hx].
    destruct (getRange_bits_cases expr r start end_ step extra Hmin Hmax Hstep
                (extra_in_range _ Hx))
      as [(e & He) | (Hs & He & Hst & [(Hov & w & Hw & _) | (Hov & Hf)])].
    + rewrite He. discriminate.
    + rewrite Hw. discriminate.
    + rewrite Hf. intros [= <-]. split; [reflexivity |].
      exists start, end_, step, extra. repeat split; lia.
  - intros _. exfalso. exact (getRange_operands_no_fault _ _ _ _ Hops).
Qed.

(** X4: over bounds within the word, [getRange] fails to return a mask or
    an error only by the panic on a negative shift, and exactly when the
    operands parse to a valid range whose step exceeds the greatest
    [int64] minus the start. *)
Theorem getRange_fault_iff_overflow ToLower expr r f :
  0 <= min r -> max r <= 63 ->
  (getRange ToLower expr r = Fault f <->
   f = NegativeShift /\
   exists start end_ step extra,
     getRange_operands ToLower expr r = Ok (start, end_, step, extra) /\
     min r <= start <= end_ /\ end_ <= max r /\
     Int64.max_int - start < step).
Proof.
  intros Hmin Hmax. split; [apply getRange_Fault_inv; assumption |].
  intros (-> & start & end_ & step & extra & Hops & Hs & He & Hov).
  unfold getRange. rewrite Hops. cbn [bind].
  destruct (getRange_operands_step _ _ _ _ _ _ _ Hops) as [Hstep Hx].
  destruct (getRange_bits_cases expr r start end_ step extra Hmin Hmax Hstep
              (extra_in_range _ Hx))
    as [(e & Herr) | (_ & _ & _ & [(Hle & _) | (_ & Hf)])];
    [| lia | exact Hf].
  exfalso. unfold getRange_bits in Herr. unfold Int64.max_int in Hov, Hstep.
  destruct (Z.ltb_spec start (min r)); [lia |].
  destruct (Z.gtb_spec end_ (max r)); [lia |].
  destruct (Z.gtb_spec start end_); [lia |].
  destruct (Z.eqb_spec step 0); [lia |].
  destruct (getBits_cases start end_ step) as [(? & _) | (_ & Hg)];
    unfold Int64.max_int in *; try lia.
  rewrite Hg in Herr. discriminate.
Qed.

Lemma getRange_fault_iff_overflow_witness :
  0 <= min dom /\ max dom <= 63 /\
  (getRange asciiToLower "2/9223372036854775806" dom = Fault NegativeShift <->
   NegativeShift = NegativeShift /\
   exists start end_ step extra,
     getRange_operands asciiToLower "2/9223372036854775806" dom
     = Ok (start, end_, step, extra) /\
     min dom <= start <= end_ /\ end_ <= max dom /\
     Int64.max_int - start < step).
Proof.
  assert (H1 : 0 <= min dom) by (simpl; lia).
  assert (H2 : max dom <= 63) by (simpl; lia).
  exact (conj H1 (conj H2
           (getRange_fault_iff_overflow asciiToLower "2/9223372036854775806"
              dom NegativeShift H1 H2))).
Defined.

(** ** Fields as unions of ranges *)

Lemma getField_loop_app ToLower r l1 : forall bits l2,
  getField_loop ToLower bits (l1 ++ l2)%list r
  = let* x := getField_loop ToLower bits l1 r in getField_loop ToLower x l2 r.
Proof.
  induction l1 as [| e l1 IH]; intros bits l2; [reflexivity |].
  cbn [app getField_loop]. destruct (getRange ToLower e r); cbn [bind];
    [apply IH | reflexivity | reflexivity].
Qed.

Lemma getField_loop_acc ToLower r l : forall bits,
  getField_loop ToLower bits l r
  = let* y := getField_loop ToLower 0 l r in Ok (Z.lor bits y).
Proof.
  induction l as [| e l IH]; intros bits; cbn [getField_loop bind].
  - rewrite Z.lor_0_r. reflexivity.
  - destruct (getRange ToLower e r) as [bit | err | f]; cbn [bind];
      [| reflexivity | reflexivity].
    rewrite (IH (Z.lor bits bit)), (IH (Z.lor 0 bit)).
    destruct (getField_loop ToLower 0 l r); cbn [bind];
      [| reflexivity | reflexivity].
    rewrite Z.lor_0_l, Z.lor_assoc. reflexivity.
Qed.

(** X5: a field is the union of its parts: the text [a,b] gives the error
    or panic of [a] if there is one, else that of [b], else the bitwise OR
    of the two masks. *)
Theorem getField_comma ToLower (a b : string) (r : bounds) :
  getField ToLower (a +:+ "," +:+ b) r
  = let* x := getField ToLower a r in
    let* y := getField ToLower b r in
    Ok (Z.lor x y).
Proof.
  unfold getField. change (a +:+ "," +:+ b) with (a +:+ String "," b).
  rewrite FieldsFunc_app by reflexivity.
  rewrite getField_loop_app.
  destruct (getField_loop ToLower 0 _ r) as [x | e | f]; cbn [bind];
    [| reflexivity | reflexivity].
  apply getField_loop_acc.
Qed.

Lemma getField_loop_within ToLower r l : forall bits v,
  0 <= min r -> max r <= 63 ->
  getField_loop ToLower bits l r = Ok v ->
  forall j, 0 <= j < 63 -> Z.testbit v j = true ->
    Z.testbit bits j = true \/ min r <= j <= max r.
Proof.
  induction l as [| e l IH]; intros bits v Hmin Hmax H j Hj Hset;
    cbn [getField_loop] in H.
  - injection H as <-. left. assumption.
  - destruct (getRange ToLower e r) as [bit | err | f] eqn:He; cbn [bind] in H;
      try discriminate.
    destruct (IH _ _ Hmin Hmax H j Hj Hset) as [Hb | Hb]; [| right; assumption].
    rewrite Z.lor_spec in Hb. apply orb_true_iff in Hb as [Hb | Hb];
      [left; assumption | right].
    apply (getRange_within _ _ _ _ Hmin Hmax He); assumption.
Qed.

Lemma getField_within ToLower field r v :
  0 <= min r -> max r <= 63 ->
  getField ToLower field r = Ok v -> within r v.
Proof.
  intros Hmin Hmax H j Hj Hset.
  destruct (getField_loop_within _ _ _ _ _ Hmin Hmax H j Hj Hset) as [Hb | Hb];
    [| assumption].
  rewrite Z.bits_0 in Hb. discriminate.
Qed.

Lemma getField_fault ToLower field r f :
  0 <= min r -> max r <= 63 ->
  getField ToLower field r = Fault f -> f = NegativeShift.
Proof.
  intros Hmin Hmax. unfold getField. generalize 0.
  induction (FieldsFunc field _) as [| e l IH]; intros bits;
    cbn [getField_loop]; [discriminate |].
  destruct (getRange ToLower e r) as [bit | err | f'] eqn:He; cbn [bind];
    [apply IH | discriminate |].
  intros [= ->].
  apply (getRange_Fault_inv _ _ _ _ Hmin Hmax) in He. apply He.
Qed.

(** ** The slots *)

Lemma expand_slots_length fields opts ps : forall ds,
  length ps = length ds -> length (expand_slots fields opts ps ds) = length ps.
Proof.
  revert fields. induction ps as [| p ps IH]; intros fields [| d ds] Hlen;
    simpl in *; try lia.
  destruct (has opts p); [destruct fields |]; simpl; rewrite IH by lia;
    reflexivity.
Qed.

Lemma expandFields_cases (fields : list string) (opts : Z) :
  expandFields fields opts = Ok (expand_slots fields opts places defaults) \/
  (fields = [] /\ has opts Flag.Second = true /\
   expandFields fields opts = Fault IndexOutOfRange).
Proof.
  destruct fields as [| fd fields].
  - destruct (has opts Flag.Second) eqn:Hs.
    + right. repeat split.
      unfold expandFields, places. rewrite expandFields_loop_cons, Hs.
      reflexivity.
    + left. apply expandFields_no_fields, Hs.
  - left. apply expandFields_slots. discriminate.
Qed.

Lemma expandFields_Ok_length fields opts slots :
  expandFields fields opts = Ok slots -> length slots = 6%nat.
Proof.
  intros H. destruct (expandFields_cases fields opts) as [E | (_ & _ & E)];
    rewrite E in H; [| discriminate].
  injection H as <-. exact (expand_slots_length _ _ places defaults eq_refl).
Qed.

Lemma expandFields_Fault_inv fields opts f :
  expandFields fields opts = Fault f ->
  fields = [] /\ has opts Flag.Second = true.
Proof.
  intros H. destruct (expandFields_cases fields opts) as [E | (Hn & Hs & _)];
    [rewrite E in H; discriminate | split; assumption].
Qed.

(** X6: [expandFields] never returns an error; it panics, on the index,
    exactly when no field is given while the seconds are enabled; and what
    it returns has six slots. *)
Theorem expandFields_fault_iff (fields : list string) (opts : Z) :
  (forall f, expandFields fields opts = Fault f <->
     f = IndexOutOfRange /\ fields = [] /\ has opts Flag.Second = true) /\
  (forall e, expandFields fields opts <> Err e) /\
  (forall slots, expandFields fields opts = Ok slots -> length slots = 6%nat).
Proof.
  split; [| split].
  - intros f. split.
    + intros H. destruct (expandFields_cases fields opts) as [E | (Hn & Hs & E)];
        rewrite E in H; [discriminate |].
      injection H as <-. repeat split; assumption.
    + intros (-> & Hn & Hs).
      destruct (expandFields_cases fields opts) as [E | (_ & _ & E)];
        [| exact E].
      subst fields. exfalso.
      assert (Hf : expandFields [] opts = Fault IndexOutOfRange).
      { unfold expandFields, places. rewrite expandFields_loop_cons, Hs.
        reflexivity. }
      rewrite Hf in E. discriminate.
  - intros e H. destruct (expandFields_cases fields opts) as [E | (_ & _ & E)];
      rewrite E in H; discriminate.
  - intros slots. apply expandFields_Ok_length.
Qed.

(** ** The limits of a parser *)

Lemma upperLimit_of_sum opts :
  upperLimit_of opts
  = Z.b2z (has opts Flag.Second) + Z.b2z (has opts Flag.Minute)
    + Z.b2z (has opts Flag.Hour) + Z.b2z (has opts Flag.Dom)
    + Z.b2z (has opts Flag.Month) + Z.b2z (has opts Flag.Dow).
Proof.
  unfold upperLimit_of, places. cbn [fold_left].
  destruct (has opts Flag.Second), (has opts Flag.Minute), (has opts Flag.Hour),
    (has opts Flag.Dom), (has opts Flag.Month), (has opts Flag.Dow);
    reflexivity.
Qed.

Lemma has_lor_Dow opts :
  has (Z.lor opts Flag.Dow) Flag.Dow = true /\
  has (Z.lor opts Flag.Dow) Flag.Second = has opts Flag.Second.
Proof.
  unfold has. split.
  - assert (E : Z.land (Z.lor opts Flag.Dow) Flag.Dow = Flag.Dow).
    { apply Z.bits_inj'. intros n Hn.
      rewrite Z.land_spec, Z.lor_spec.
      destruct (Z.testbit Flag.Dow n), (Z.testbit opts n); reflexivity. }
    rewrite E. reflexivity.
  - f_equal. apply Z.bits_inj'. intros n Hn.
    rewrite !Z.land_spec, Z.lor_spec.
    destruct (Z.eq_dec n 0) as [-> | Hne].
    + change (Z.testbit Flag.Dow 0) with false. rewrite orb_false_r. reflexivity.
    + replace (Z.testbit Flag.Second n) with false; [rewrite !andb_false_r; reflexivity |].
      symmetry. unfold Flag.Second. apply Z.bits_above_log2; simpl; lia.
Qed.

Lemma NewParser_limits opts :
  has (options (NewParser opts)) Flag.Second = true ->
  1 <= upperLimit_of (options (NewParser opts)) - optionals (NewParser opts).
Proof.
  unfold NewParser. destruct (has opts Flag.DowOptional); cbn [options optionals].
  - destruct (has_lor_Dow opts) as [Hd Hs]. intros H.
    rewrite upperLimit_of_sum, Hd, H. unfold Z.b2z.
    repeat match goal with |- context [if ?b then _ else _] => destruct b end; lia.
  - intros H. rewrite upperLimit_of_sum, H. unfold Z.b2z.
    repeat match goal with |- context [if ?b then _ else _] => destruct b end; lia.
Qed.

Lemma parseDescriptor_no_fault ParseDuration descriptor f :
  parseDescriptor ParseDuration descriptor <> Fault f.
Proof.
  unfold parseDescriptor.
  do 5 (match goal with
        | |- context [if ?b then _ else _] =>
            lazymatch b with
            | context [String.eqb] => destruct b; [vm_compute; discriminate |]
            end
        end).
  cbv zeta.
  destruct (HasPrefix descriptor "@every "); [| discriminate].
  destruct (ParseDuration _) as [d |]; [| discriminate].
  destruct (d <? Duration.Hour); [| destruct (d <? Duration.Hour * 24)];
    discriminate.
Qed.

(** The fields of a schedule parsed from six slots. *)
Lemma Parse_fields_inv ToLower (slots : list string) (s : Schedule)
  (P : result Schedule -> Prop) :
  length slots = 6%nat ->
  (forall f0 f1 f2 f3 f4 f5, slots = [f0; f1; f2; f3; f4; f5] ->
     P (let* second := getField ToLower f0 seconds in
        let* minute := getField ToLower f1 minutes in
        let* hour := getField ToLower f2 hours in
        let* dayofmonth := getField ToLower f3 dom in
        let* month := getField ToLower f4 months in
        let* dayofweek := getField ToLower f5 dow in
        Ok {| Second := second; Minute := minute; Hour := hour;
              Dom := dayofmonth; Month := month; Dow := dayofweek;
              RepeatHour := 0; RepeatMin := 0; RepeatDate := 0;
              location := None |})) ->
  P (let* second := field ToLower slots 0 seconds in
     let* minute := field ToLower slots 1 minutes in
     let* hour := field ToLower slots 2 hours in
     let* dayofmonth := field ToLower slots 3 dom in
     let* month := field ToLower slots 4 months in
     let* dayofweek := field ToLower slots 5 dow in
     Ok {| Second := second; Minute := minute; Hour := hour;
           Dom := dayofmonth; Month := month; Dow := dayofweek;
           RepeatHour := 0; RepeatMin := 0; RepeatDate := 0;
           location := None |}).
Proof.
  intros Hlen H.
  destruct slots as [| f0 [| f1 [| f2 [| f3 [| f4 [| f5 [| f6 slots]]]]]]];
    simpl in Hlen; try lia.
  exact (H f0 f1 f2 f3 f4 f5 eq_refl).
Qed.

(** ** Whole parses *)

Lemma within_check r m :
  forallb (fun j => implb (Z.testbit m j) ((min r <=? j) && (j <=? max r)))
    (map Z.of_nat (seq 0 63)) = true ->
  within r m.
Proof.
  intros H j Hj Hset. rewrite forallb_forall in H.
  specialize (H j). rewrite Hset in H. simpl in H.
  assert (Hin : In j (map Z.of_nat (seq 0 63))).
  { apply in_map_iff. exists (Z.to_nat j). split; [lia |].
    apply in_seq. lia. }
  apply H in Hin. apply andb_true_iff in Hin as [H1 H2].
  apply Z.leb_le in H1, H2. lia.
Qed.

Lemma parseDescriptor_within ParseDuration descriptor s :
  parseDescriptor ParseDuration descriptor = Ok s -> masks_within_bounds s.
Proof.
  unfold parseDescriptor.
  do 5 (match goal with
        | |- context [if ?b then _ else _] =>
            lazymatch b with
            | context [String.eqb] =>
                destruct b;
                [intros [= <-]; unfold masks_within_bounds;
                 repeat apply conj; apply within_check;
                 vm_compute; reflexivity |]
            end
        end).
  cbv zeta.
  destruct (HasPrefix descriptor "@every "); [| discriminate].
  destruct (ParseDuration _) as [d |]; [| discriminate].
  destruct (d <? Duration.Hour); [| destruct (d <? Duration.Hour * 24)];
    intros [= <-]; unfold masks_within_bounds; repeat apply conj;
    intros j Hj Hset; simpl in Hset; rewrite Z.bits_0 in Hset; discriminate.
Qed.

(** X7: in every schedule that [Parser.Parse] returns, for any parser,
    each mask has its value bits within the bounds of its field: seconds
    and minutes 0 to 59, hours 0 to 23, day of month 1 to 31, month 1 to
    12, day of week 0 to 6. *)
Theorem Parse_masks_within_bounds ToLower ParseDuration (p : Parser)
  (spec : string) (s : Schedule) :
  Parser_Parse ToLower ParseDuration p spec = Ok s -> masks_within_bounds s.
Proof.
  unfold Parser_Parse.
  destruct (len spec =? 0); [discriminate |].
  destruct (starts_with_at spec && has (options p) Flag.Descriptor);
    [apply parseDescriptor_within |].
  match goal with |- context [if ?b then _ else _] => destruct b end.
  { destruct (_ =? _); discriminate. }
  destruct (expandFields (Fields spec) (options p)) as [slots | e | f] eqn:Hexp;
    cbn [bind]; try discriminate.
  apply (Parse_fields_inv ToLower slots s
           (fun res => res = Ok s -> masks_within_bounds s)).
  { exact (expandFields_Ok_length _ _ _ Hexp). }
  intros f0 f1 f2 f3 f4 f5 _.
  destruct (getField ToLower f0 seconds) as [v0 | |] eqn:H0; cbn [bind]; try discriminate.
  destruct (getField ToLower f1 minutes) as [v1 | |] eqn:H1; cbn [bind]; try discriminate.
  destruct (getField ToLower f2 hours) as [v2 | |] eqn:H2; cbn [bind]; try discriminate.
  destruct (getField ToLower f3 dom) as [v3 | |] eqn:H3; cbn [bind]; try discriminate.
  destruct (getField ToLower f4 months) as [v4 | |] eqn:H4; cbn [bind]; try discriminate.
  destruct (getField ToLower f5 dow) as [v5 | |] eqn:H5; cbn [bind]; try discriminate.
  intros [= <-]. unfold masks_within_bounds. cbn [Second Minute Hour Dom Month Dow].
  repeat apply conj; eapply getField_within; try eassumption; simpl; lia.
Qed.

Lemma Parse_masks_within_bounds_witness :
  Parser_Parse asciiToLower ParseDuration_whole standardParser "*/15 9-17 * jan-mar mon"
  = Ok (fieldSchedule 1 (2 ^ 0 + 2 ^ 15 + 2 ^ 30 + 2 ^ 45 + Int64.min_int)
          (2 ^ 18 - 2 ^ 9) (all_bits dom) (2 ^ 1 + 2 ^ 2 + 2 ^ 3) (2 ^ 1) 0) /\
  masks_within_bounds
    (fieldSchedule 1 (2 ^ 0 + 2 ^ 15 + 2 ^ 30 + 2 ^ 45 + Int64.min_int)
       (2 ^ 18 - 2 ^ 9) (all_bits dom) (2 ^ 1 + 2 ^ 2 + 2 ^ 3) (2 ^ 1) 0).
Proof.
  assert (H : Parser_Parse asciiToLower ParseDuration_whole standardParser
                "*/15 9-17 * jan-mar mon"
              = Ok (fieldSchedule 1
                      (2 ^ 0 + 2 ^ 15 + 2 ^ 30 + 2 ^ 45 + Int64.min_int)
                      (2 ^ 18 - 2 ^ 9) (all_bits dom)
                      (2 ^ 1 + 2 ^ 2 + 2 ^ 3) (2 ^ 1) 0))
    by (vm_compute; reflexivity).
  exact (conj H (Parse_masks_within_bounds _ _ _ _ _ H)).
Defined.

(** X8: with a parser made by [NewParser], [Parse] never panics on an
    index and never loops: the one way it can fail to return is the
    negative shift of [getBits]. *)
Theorem Parse_only_panics_on_shift ToLower ParseDuration (opts : Z)
  (spec : string) (f : fault) :
  Parser_Parse ToLower ParseDuration (NewParser opts) spec = Fault f ->
  f = NegativeShift.
Proof.
  unfold Parser_Parse.
  destruct (len spec =? 0); [discriminate |].
  destruct (starts_with_at spec && has (options (NewParser opts)) Flag.Descriptor).
  { intros H. exfalso. exact (parseDescriptor_no_fault _ _ _ H). }
  match goal with |- context [if ?b then _ else _] => destruct b eqn:Hcount end.
  { destruct (_ =? _); discriminate. }
  apply orb_false_iff in Hcount as [Hlow _]. apply Z.ltb_ge in Hlow.
  destruct (expandFields (Fields spec) (options (NewParser opts)))
    as [slots | e | f'] eqn:Hexp; cbn [bind]; try discriminate.
  - apply (Parse_fields_inv ToLower slots zeroSchedule
             (fun res => res = Fault f -> f = NegativeShift)).
    { exact (expandFields_Ok_length _ _ _ Hexp). }
    intros f0 f1 f2 f3 f4 f5 _.
    destruct (getField ToLower f0 seconds) as [v0 | |] eqn:H0; cbn [bind];
      try discriminate;
      [| intros [= <-]; eapply getField_fault; [| | exact H0]; simpl; lia].
    destruct (getField ToLower f1 minutes) as [v1 | |] eqn:H1; cbn [bind];
      try discriminate;
      [| intros [= <-]; eapply getField_fault; [| | exact H1]; simpl; lia].
    destruct (getField ToLower f2 hours) as [v2 | |] eqn:H2; cbn [bind];
      try discriminate;
      [| intros [= <-]; eapply getField_fault; [| | exact H2]; simpl; lia].
    destruct (getField ToLower f3 dom) as [v3 | |] eqn:H3; cbn [bind];
      try discriminate;
      [| intros [= <-]; eapply getField_fault; [| | exact H3]; simpl; lia].
    destruct (getField ToLower f4 months) as [v4 | |] eqn:H4; cbn [bind];
      try discriminate;
      [| intros [= <-]; eapply getField_fault; [| | exact H4]; simpl; lia].
    destruct (getField ToLower f5 dow) as [v5 | |] eqn:H5; cbn [bind];
      try discriminate.
    intros [= <-]; eapply getField_fault; [| | exact H5]; simpl; lia.
  - exfalso.
    apply expandFields_Fault_inv in Hexp as (Hnil & Hsec).
    apply NewParser_limits in Hsec. rewrite Hnil in Hlow. simpl in Hlow. lia.
Qed.

Lemma Parse_only_panics_on_shift_witness :
  Parser_Parse asciiToLower ParseDuration_whole
    (NewParser (Z.lor Flag.Dom (Z.lor Flag.Month Flag.DowOptional)))
    "2/9223372036854775806 *"
  = Fault NegativeShift /\ NegativeShift = NegativeShift.
Proof.
  assert (H : Parser_Parse asciiToLower ParseDuration_whole
                (NewParser (Z.lor Flag.Dom (Z.lor Flag.Month Flag.DowOptional)))
                "2/9223372036854775806 *" = Fault NegativeShift)
    by (vm_compute; reflexivity).
  exact (conj H (Parse_only_panics_on_shift _ _ _ _ _ H)).
Defined.

(** X9: a parser without the [Descriptor] option returns field schedules
    only: all three repeat fields are 0 and there is no location, also for
    a text that starts with [@]. *)
Theorem Parse_without_descriptors ToLower ParseDuration (p : Parser)
  (spec : string) (s : Schedule) :
  has (options p) Flag.Descriptor = false ->
  Parser_Parse ToLower ParseDuration p spec = Ok s ->
  repeat_free s /\ location s = None.
Proof.
  intros Hd. unfold Parser_Parse.
  destruct (len spec =? 0); [discriminate |].
  rewrite Hd, andb_false_r.
  match goal with |- context [if ?b then _ else _] => destruct b end.
  { destruct (_ =? _); discriminate. }
  repeat match goal with
  | |- context [bind ?r _] => destruct r; cbn [bind]; try discriminate
  end.
  intros [= <-]. unfold repeat_free. simpl. tauto.
Qed.

Lemma Parse_without_descriptors_witness :
  has (options (NewParser (Z.lor Flag.Dom (Z.lor Flag.Month Flag.Dow))))
    Flag.Descriptor = false /\
  Parser_Parse asciiToLower ParseDuration_whole
    (NewParser (Z.lor Flag.Dom (Z.lor Flag.Month Flag.Dow))) "15 */3 *"
  = Ok (fieldSchedule 1 1 1 (2 ^ 15) (2 ^ 1 + 2 ^ 4 + 2 ^ 7 + 2 ^ 10 + Int64.min_int)
          (all_bits dow) 0) /\
  (repeat_free
     (fieldSchedule 1 1 1 (2 ^ 15)
        (2 ^ 1 + 2 ^ 4 + 2 ^ 7 + 2 ^ 10 + Int64.min_int) (all_bits dow) 0) /\
   location
     (fieldSchedule 1 1 1 (2 ^ 15)
        (2 ^ 1 + 2 ^ 4 + 2 ^ 7 + 2 ^ 10 + Int64.min_int) (all_bits dow) 0)
   = None).
Proof.
  assert (H1 : has (options (NewParser (Z.lor Flag.Dom (Z.lor Flag.Month Flag.Dow))))
                 Flag.Descriptor = false) by reflexivity.
  assert (H2 : Parser_Parse asciiToLower ParseDuration_whole
                 (NewParser (Z.lor Flag.Dom (Z.lor Flag.Month Flag.Dow))) "15 */3 *"
               = Ok (fieldSchedule 1 1 1 (2 ^ 15)
                       (2 ^ 1 + 2 ^ 4 + 2 ^ 7 + 2 ^ 10 + Int64.min_int)
                       (all_bits dow) 0)) by (vm_compute; reflexivity).
  exact (conj H1 (conj H2 (Parse_without_descriptors _ _ _ _ _ H1 H2))).
Defined.

(** X10: for a text that is not empty and does not start with [@], the
    standard parser rejects any number of fields other than 5 with the
    exact-count error, and the default parser any number below 5 or above
    6 with the range error. *)
Theorem preset_parsers_field_count ToLower ParseDuration (spec : string) :
  spec <> "" -> starts_with_at spec = false ->
  (Z.of_nat (length (Fields spec)) <> 5 ->
   ParseStandard ToLower ParseDuration spec
   = Err (FieldCountExact 5 (Z.of_nat (length (Fields spec))) spec)) /\
  (Z.of_nat (length (Fields spec)) < 5 \/ 6 < Z.of_nat (length (Fields spec)) ->
   Parse ToLower ParseDuration spec
   = Err (FieldCountRange 5 6 (Z.of_nat (length (Fields spec))) spec)).
Proof.
  intros Hne Hat.
  assert (Hlen : (len spec =? 0) = false).
  { destruct spec; [congruence | reflexivity]. }
  unfold ParseStandard, Parse, Parser_Parse.
  rewrite Hlen, Hat. cbn [andb].
  change (upperLimit_of (options standardParser)) with 5.
  change (upperLimit_of (options defaultParser)) with 6.
  change (optionals standardParser) with 0.
  change (optionals defaultParser) with 1.
  change (5 - 0) with 5. change (6 - 1) with 5.
  change (5 =? 5) with true. change (5 =? 6) with false. cbv iota.
  set (n := Z.of_nat (length (Fields spec))).
  split; intros Hn.
  - destruct (Z.ltb_spec n 5), (Z.gtb_spec n 5); try lia; reflexivity.
  - destruct (Z.ltb_spec n 5), (Z.gtb_spec n 6); try lia; reflexivity.
Qed.

Lemma preset_parsers_field_count_witness :
  "* * *" <> "" /\ starts_with_at "* * *" = false /\
  ((Z.of_nat (length (Fields "* * *")) <> 5 ->
    ParseStandard asciiToLower ParseDuration_whole "* * *"
    = Err (FieldCountExact 5 (Z.of_nat (length (Fields "* * *"))) "* * *")) /\
   (Z.of_nat (length (Fields "* * *")) < 5 \/
    6 < Z.of_nat (length (Fields "* * *")) ->
    Parse asciiToLower ParseDuration_whole "* * *"
    = Err (FieldCountRange 5 6 (Z.of_nat (length (Fields "* * *"))) "* * *"))).
Proof.
  assert (H1 : "* * *" <> "") by discriminate.
  assert (H2 : starts_with_at "* * *" = false) by reflexivity.
  exact (conj H1 (conj H2
           (preset_parsers_field_count asciiToLower ParseDuration_whole
              "* * *" H1 H2))).
Defined.

(** ** Ranges, form by form *)

Lemma getRange_value_operands ToLower r ntxt n :
  plain ntxt = true ->
  parseIntOrName ToLower ntxt (names r) = Ok n ->
  getRange_operands ToLower ntxt r = Ok (n, n, 1, 0).
Proof.
  intros Hp Hn. apply plain_spec in Hp as (Hslash & Hhyphen & Hw).
  unfold getRange_operands.
  rewrite (Split_no_byte ntxt "/") by assumption.
  cbn [index lookup list_lookup bind length].
  rewrite (Split_no_byte ntxt "-") by assumption.
  cbn [index lookup list_lookup bind length]. rewrite Hw, Hn. reflexivity.
Qed.

Lemma getRange_span_operands ToLower r ntxt mtxt n m :
  plain ntxt = true -> plain mtxt = true ->
  parseIntOrName ToLower ntxt (names r) = Ok n ->
  parseIntOrName ToLower mtxt (names r) = Ok m ->
  getRange_operands ToLower (ntxt +:+ "-" +:+ mtxt) r = Ok (n, m, 1, 0).
Proof.
  intros Hpn Hpm Hn Hm.
  apply plain_spec in Hpn as (Hnslash & Hnhyphen & Hnw).
  apply plain_spec in Hpm as (Hmslash & Hmhyphen & Hmw).
  unfold getRange_operands.
  rewrite (Split_no_byte (ntxt +:+ "-" +:+ mtxt) "/").
  2:{ change ("-" +:+ mtxt) with (String "-" mtxt).
      rewrite no_byte_app. cbn [no_byte]. rewrite Hnslash, Hmslash. reflexivity. }
  cbn [index lookup list_lookup bind length].
  change ("-" +:+ mtxt) with (String "-" mtxt).
  rewrite (Split_app ntxt mtxt "-") by assumption.
  rewrite (Split_no_byte mtxt "-") by assumption.
  cbn [index lookup list_lookup bind length].
  rewrite Hnw, Hn. cbn [bind]. rewrite Hm. reflexivity.
Qed.

(** X11: a value [N] within the bounds gives the mask of the bit N alone,
    and [N-M] the mask of the bits N to M; a value is a number or a name
    of the field. *)
Theorem getRange_value_and_span ToLower r ntxt mtxt n m :
  0 <= min r -> max r <= 63 ->
  plain ntxt = true -> plain mtxt = true ->
  parseIntOrName ToLower ntxt (names r) = Ok n ->
  parseIntOrName ToLower mtxt (names r) = Ok m ->
  min r <= n <= m -> m <= max r ->
  (exists v, getRange ToLower ntxt r = Ok v /\ Int64.in_range v /\
     forall j, 0 <= j < 64 -> Z.testbit v j = (j =? n)) /\
  (exists v, getRange ToLower (ntxt +:+ "-" +:+ mtxt) r = Ok v /\
     Int64.in_range v /\
     forall j, 0 <= j < 64 -> Z.testbit v j = (n <=? j) && (j <=? m)).
Proof.
  intros Hmin Hmax Hpn Hpm Hn Hm Hnm Hmr. split.
  - unfold getRange.
    rewrite (getRange_value_operands ToLower r ntxt n Hpn Hn). cbn [bind].
    destruct (getRange_bits_ok ntxt r n n 1 0) as (v & Hv & Hvr & Hvt);
      try lia; [max_int; lia | unfold Int64.in_range, Int64.min_int; max_int; lia |].
    exists v. split; [assumption |]. split; [assumption |].
    intros j Hj. rewrite Hvt, Z.bits_0, orb_false_r by lia. unfold in_prog.
    rewrite Z.mod_1_r.
    destruct (Z.leb_spec n j), (Z.leb_spec j n), (Z.eqb_spec j n); try lia;
      reflexivity.
  - unfold getRange.
    rewrite (getRange_span_operands ToLower r ntxt mtxt n m Hpn Hpm Hn Hm).
    cbn [bind].
    destruct (getRange_bits_ok (ntxt +:+ "-" +:+ mtxt) r n m 1 0)
      as (v & Hv & Hvr & Hvt);
      try lia; [max_int; lia | unfold Int64.in_range, Int64.min_int; max_int; lia |].
    exists v. split; [assumption |]. split; [assumption |].
    intros j Hj. rewrite Hvt, Z.bits_0, orb_false_r by lia. unfold in_prog.
    rewrite Z.mod_1_r. apply andb_true_r.
Qed.

Lemma getRange_value_and_span_witness :
  0 <= min months /\ max months <= 63 /\
  plain "Feb" = true /\ plain "JUN" = true /\
  parseIntOrName asciiToLower "Feb" (names months) = Ok 2 /\
  parseIntOrName asciiToLower "JUN" (names months) = Ok 6 /\
  min months <= 2 <= 6 /\ 6 <= max months /\
  ((exists v, getRange asciiToLower "Feb" months = Ok v /\ Int64.in_range v /\
      forall j, 0 <= j < 64 -> Z.testbit v j = (j =? 2)) /\
   (exists v, getRange asciiToLower ("Feb" +:+ "-" +:+ "JUN") months = Ok v /\
      Int64.in_range v /\
      forall j, 0 <= j < 64 -> Z.testbit v j = (2 <=? j) && (j <=? 6))).
Proof.
  assert (H1 : 0 <= min months) by (simpl; lia).
  assert (H2 : max months <= 63) by (simpl; lia).
  assert (H3 : plain "Feb" = true) by reflexivity.
  assert (H4 : plain "JUN" = true) by reflexivity.
  assert (H5 : parseIntOrName asciiToLower "Feb" (names months) = Ok 2)
    by (vm_compute; reflexivity).
  assert (H6 : parseIntOrName asciiToLower "JUN" (names months) = Ok 6)
    by (vm_compute; reflexivity).
  assert (H7 : min months <= 2 <= 6) by (simpl; lia).
  assert (H8 : 6 <= max months) by (simpl; lia).
  exact (conj H1 (conj H2 (conj H3 (conj H4 (conj H5 (conj H6 (conj H7 (conj H8
           (getRange_value_and_span asciiToLower months "Feb" "JUN" 2 6
              H1 H2 H3 H4 H5 H6 H7 H8))))))))).
Defined.

(** The two outcomes of a valid range with a step. *)
Lemma getRange_bits_step expr r start end_ step extra :
  0 <= min r -> max r <= 63 ->
  min r <= start <= end_ -> end_ <= max r ->
  1 <= step <= Int64.max_int -> Int64.in_range extra ->
  (step <= Int64.max_int - start ->
   exists v, getRange_bits expr r start end_ step extra = Ok v /\
     Int64.in_range v /\
     forall j, 0 <= j < 64 ->
       Z.testbit v j = in_prog start end_ step j || Z.testbit extra j) /\
  (Int64.max_int - start < step ->
   getRange_bits expr r start end_ step extra = Fault NegativeShift).
Proof.
  intros Hmin Hmax Hs He Hstep Hx.
  destruct (getRange_bits_cases expr r start end_ step extra Hmin Hmax
              ltac:(lia) Hx)
    as [(e & Herr) | (_ & _ & _ & [(Hov & Hok) | (Hov & Hf)])].
  - exfalso. unfold getRange_bits in Herr.
    destruct (Z.ltb_spec start (min r)); [lia |].
    destruct (Z.gtb_spec end_ (max r)); [lia |].
    destruct (Z.gtb_spec start end_); [lia |].
    destruct (Z.eqb_spec step 0); [lia |].
    destruct (getBits_cases start end_ step) as [(_ & v & Hv & _) | (_ & Hv)];
      try lia; rewrite Hv in Herr; discriminate.
  - split; [intros _; exact Hok | intros H; lia].
  - split; [intros H; lia | intros _; exact Hf].
Qed.

(** X12: [*/s] gives the bits [min], [min + s], ... up to [max] and the
    star bit whenever [min + s] does not overflow, and panics otherwise;
    with a minimum of 0 it never panics. *)
Theorem getRange_wildcard_step ToLower r stxt s :
  0 <= min r <= max r -> max r <= 63 ->
  mustParseInt stxt = Ok s -> 1 <= s ->
  (s <= Int64.max_int - min r ->
   exists v, getRange ToLower ("*/" +:+ stxt) r = Ok v /\ Int64.in_range v /\
     forall j, 0 <= j < 64 ->
       Z.testbit v j = in_prog (min r) (max r) s j || (j =? 63)) /\
  (Int64.max_int - min r < s ->
   getRange ToLower ("*/" +:+ stxt) r = Fault NegativeShift).
Proof.
  intros Hr Hmax Hs Hpos. unfold getRange.
  rewrite (getRange_star_step_operands ToLower r stxt s Hs). cbn [bind].
  destruct (getRange_bits_step ("*/" +:+ stxt) r (min r) (max r) s
              (Int64.of_uint64 starBit)) as [Hok Hf]; try lia.
  { split; [lia |]. apply (mustParseInt_Ok _ _ Hs). }
  { apply wrap_in_range. }
  split; [| exact Hf].
  intros Hov. destruct (Hok Hov) as (v & Hv & Hvr & Hvt).
  exists v. split; [assumption |]. split; [assumption |].
  intros j Hj. rewrite Hvt, starBit_bits by lia. reflexivity.
Qed.

Lemma getRange_wildcard_step_witness :
  0 <= min hours <= max hours /\ max hours <= 63 /\
  mustParseInt "6" = Ok 6 /\ 1 <= 6 /\
  ((6 <= Int64.max_int - min hours ->
    exists v, getRange asciiToLower ("*/" +:+ "6") hours = Ok v /\
      Int64.in_range v /\
      forall j, 0 <= j < 64 ->
        Z.testbit v j = in_prog (min hours) (max hours) 6 j || (j =? 63)) /\
   (Int64.max_int - min hours < 6 ->
    getRange asciiToLower ("*/" +:+ "6") hours = Fault NegativeShift)).
Proof.
  assert (H1 : 0 <= min hours <= max hours) by (simpl; lia).
  assert (H2 : max hours <= 63) by (simpl; lia).
  assert (H3 : mustParseInt "6" = Ok 6) by reflexivity.
  assert (H4 : 1 <= 6) by lia.
  exact (conj H1 (conj H2 (conj H3 (conj H4
           (getRange_wildcard_step asciiToLower hours "6" 6 H1 H2 H3 H4))))).
Defined.

(** X13: [N/s] gives the bits N, N + s, ... up to the maximum of the
    bounds whenever [N + s] does not overflow, and panics otherwise. *)
Theorem getRange_value_step ToLower r ntxt stxt n s :
  0 <= min r -> max r <= 63 ->
  plain ntxt = true ->
  parseIntOrName ToLower ntxt (names r) = Ok n ->
  mustParseInt stxt = Ok s ->
  min r <= n <= max r -> 1 <= s ->
  (s <= Int64.max_int - n ->
   exists v, getRange ToLower (ntxt +:+ "/" +:+ stxt) r = Ok v /\
     Int64.in_range v /\
     forall j, 0 <= j < 64 -> Z.testbit v j = in_prog n (max r) s j) /\
  (Int64.max_int - n < s ->
   getRange ToLower (ntxt +:+ "/" +:+ stxt) r = Fault NegativeShift).
Proof.
  intros Hmin Hmax Hp Hn Hs Hnr Hpos. unfold getRange.
  rewrite (getRange_single_step_operands ToLower r ntxt stxt n s Hp Hn Hs).
  cbn [bind].
  destruct (getRange_bits_step (ntxt +:+ "/" +:+ stxt) r n (max r) s 0)
    as [Hok Hf]; try lia.
  { split; [lia |]. apply (mustParseInt_Ok _ _ Hs). }
  { unfold Int64.in_range, Int64.min_int, Int64.max_int. lia. }
  split; [| exact Hf].
  intros Hov. destruct (Hok Hov) as (v & Hv & Hvr & Hvt).
  exists v. split; [assumption |]. split; [assumption |].
  intros j Hj. rewrite Hvt, Z.bits_0, orb_false_r by lia. reflexivity.
Qed.

Lemma getRange_value_step_witness :
  0 <= min minutes /\ max minutes <= 63 /\
  plain "5" = true /\
  parseIntOrName asciiToLower "5" (names minutes) = Ok 5 /\
  mustParseInt "20" = Ok 20 /\
  min minutes <= 5 <= max minutes /\ 1 <= 20 /\
  ((20 <= Int64.max_int - 5 ->
    exists v, getRange asciiToLower ("5" +:+ "/" +:+ "20") minutes = Ok v /\
      Int64.in_range v /\
      forall j, 0 <= j < 64 -> Z.testbit v j = in_prog 5 (max minutes) 20 j) /\
   (Int64.max_int - 5 < 20 ->
    getRange asciiToLower ("5" +:+ "/" +:+ "20") minutes = Fault NegativeShift)).
Proof.
  assert (H1 : 0 <= min minutes) by (simpl; lia).
  assert (H2 : max minutes <= 63) by (simpl; lia).
  assert (H3 : plain "5" = true) by reflexivity.
  assert (H4 : parseIntOrName asciiToLower "5" (names minutes) = Ok 5)
    by reflexivity.
  assert (H5 : mustParseInt "20" = Ok 20) by reflexivity.
  assert (H6 : min minutes <= 5 <= max minutes) by (simpl; lia).
  assert (H7 : 1 <= 20) by lia.
  exact (conj H1 (conj H2 (conj H3 (conj H4 (conj H5 (conj H6 (conj H7
           (getRange_value_step asciiToLower minutes "5" "20" 5 20
              H1 H2 H3 H4 H5 H6 H7)))))))).
Defined.

(** X14: [N-M/s] gives the bits N, N + s, ... up to M whenever [N + s]
    does not overflow, and panics otherwise. *)
Theorem getRange_span_step ToLower r ntxt mtxt stxt n m s :
  0 <= min r -> max r <= 63 ->
  plain ntxt = true -> plain mtxt = true ->
  parseIntOrName ToLower ntxt (names r) = Ok n ->
  parseIntOrName ToLower mtxt (names r) = Ok m ->
  mustParseInt stxt = Ok s ->
  min r <= n <= m -> m <= max r -> 1 <= s ->
  (s <= Int64.max_int - n ->
   exists v,
     getRange ToLower (ntxt +:+ "-" +:+ mtxt +:+ "/" +:+ stxt) r = Ok v /\
     Int64.in_range v /\
     forall j, 0 <= j < 64 -> Z.testbit v j = in_prog n m s j) /\
  (Int64.max_int - n < s ->
   getRange ToLower (ntxt +:+ "-" +:+ mtxt +:+ "/" +:+ stxt) r
   = Fault NegativeShift).
Proof.
  intros Hmin Hmax Hpn Hpm Hn Hm Hs Hnm Hmr Hpos. unfold getRange.
  rewrite (getRange_range_step_operands ToLower r ntxt mtxt stxt n m s
             Hpn Hpm Hn Hm Hs). cbn [bind].
  destruct (getRange_bits_step (ntxt +:+ "-" +:+ mtxt +:+ "/" +:+ stxt) r n m s 0)
    as [Hok Hf]; try lia.
  { split; [lia |]. apply (mustParseInt_Ok _ _ Hs). }
  { unfold Int64.in_range, Int64.min_int, Int64.max_int. lia. }
  split; [| exact Hf].
  intros Hov. destruct (Hok Hov) as (v & Hv & Hvr & Hvt).
  exists v. split; [assumption |]. split; [assumption |].
  intros j Hj. rewrite Hvt, Z.bits_0, orb_false_r by lia. reflexivity.
Qed.

Lemma getRange_span_step_witness :
  0 <= min dow /\ max dow <= 63 /\
  plain "mon" = true /\ plain "fri" = true /\
  parseIntOrName asciiToLower "mon" (names dow) = Ok 1 /\
  parseIntOrName asciiToLower "fri" (names dow) = Ok 5 /\
  mustParseInt "2" = Ok 2 /\
  min dow <= 1 <= 5 /\ 5 <= max dow /\ 1 <= 2 /\
  ((2 <= Int64.max_int - 1 ->
    exists v,
      getRange asciiToLower ("mon" +:+ "-" +:+ "fri" +:+ "/" +:+ "2") dow = Ok v /\
      Int64.in_range v /\
      forall j, 0 <= j < 64 -> Z.testbit v j = in_prog 1 5 2 j) /\
   (Int64.max_int - 1 < 2 ->
    getRange asciiToLower ("mon" +:+ "-" +:+ "fri" +:+ "/" +:+ "2") dow
    = Fault NegativeShift)).
Proof.
  assert (H1 : 0 <= min dow) by (simpl; lia).
  assert (H2 : max dow <= 63) by (simpl; lia).
  assert (H3 : plain "mon" = true) by reflexivity.
  assert (H4 : plain "fri" = true) by reflexivity.
  assert (H5 : parseIntOrName asciiToLower "mon" (names dow) = Ok 1)
    by (vm_compute; reflexivity).
  assert (H6 : parseIntOrName asciiToLower "fri" (names dow) = Ok 5)
    by (vm_compute; reflexivity).
  assert (H7 : mustParseInt "2" = Ok 2) by reflexivity.
  assert (H8 : min dow <= 1 <= 5) by (simpl; lia).
  assert (H9 : 5 <= max dow) by (simpl; lia).
  assert (H10 : 1 <= 2) by lia.
  exact (conj H1 (conj H2 (conj H3 (conj H4 (conj H5 (conj H6 (conj H7 (conj H8
          (conj H9 (conj H10
           (getRange_span_step asciiToLower dow "mon" "fri" "2" 1 5 2
              H1 H2 H3 H4 H5 H6 H7 H8 H9 H10))))))))))).
Defined.

(** ** Wildcards *)

(** X15: after a wildcard, a hyphen and whatever follows it up to the
    slash are ignored: [*-tail] parses as [*] and [?-tail] as [?]. *)
Theorem getRange_wildcard_ignores_high ToLower r tail :
  min r <= max r -> no_byte "/" tail = true ->
  getRange ToLower ("*-" +:+ tail) r = getRange ToLower "*" r /\
  getRange ToLower ("?-" +:+ tail) r = getRange ToLower "?" r.
Proof.
  intros Hr Htail.
  assert (Hops : forall w, is_wildcard (String w EmptyString) = true ->
            Ascii.eqb w "/" = false -> Ascii.eqb w "-" = false ->
            getRange_operands ToLower (String w (String "-" tail)) r
            = Ok (min r, max r, 1, Int64.of_uint64 starBit)).
  { intros w Hw Hws Hwh. unfold getRange_operands.
    rewrite (Split_no_byte (String w (String "-" tail)) "/").
    2:{ cbn [no_byte]. rewrite Hws, Htail. reflexivity. }
    cbn [index lookup list_lookup bind length].
    change (String w (String "-" tail))
      with (String w EmptyString +:+ String "-" tail).
    rewrite Split_app by (cbn [no_byte]; rewrite Hwh; reflexivity).
    cbn [index lookup list_lookup bind length]. rewrite Hw. reflexivity. }
  assert (Hbits : forall e1 e2,
            getRange_bits e1 r (min r) (max r) 1 (Int64.of_uint64 starBit)
            = getRange_bits e2 r (min r) (max r) 1 (Int64.of_uint64 starBit)).
  { intros e1 e2. unfold getRange_bits.
    destruct (Z.ltb_spec (min r) (min r)); [lia |].
    destruct (Z.gtb_spec (max r) (max r)); [lia |].
    destruct (Z.gtb_spec (min r) (max r)); [lia |]. reflexivity. }
  unfold getRange. split.
  - change ("*-" +:+ tail) with (String "*" (String "-" tail)).
    rewrite (Hops "*"%char) by reflexivity.
    rewrite (proj1 (getRange_wildcard_operands ToLower r)). cbn [bind].
    apply Hbits.
  - change ("?-" +:+ tail) with (String "?" (String "-" tail)).
    rewrite (Hops "?"%char) by reflexivity.
    rewrite (proj2 (getRange_wildcard_operands ToLower r)). cbn [bind].
    apply Hbits.
Qed.

Lemma getRange_wildcard_ignores_high_witness :
  min dom <= max dom /\ no_byte "/" "5-x" = true /\
  (getRange asciiToLower ("*-" +:+ "5-x") dom = getRange asciiToLower "*" dom /\
   getRange asciiToLower ("?-" +:+ "5-x") dom = getRange asciiToLower "?" dom).
Proof.
  assert (H1 : min dom <= max dom) by (simpl; lia).
  assert (H2 : no_byte "/" "5-x" = true) by reflexivity.
  exact (conj H1 (conj H2
           (getRange_wildcard_ignores_high asciiToLower dom "5-x" H1 H2))).
Defined.

(** X16: a bare wildcard parses to the mask that [all] builds for the
    descriptors. *)
Theorem getRange_wildcard_is_all ToLower r :
  min r <= max r ->
  getRange ToLower "*" r = all r /\ getRange ToLower "?" r = all r.
Proof.
  intros Hr. unfold getRange.
  rewrite (proj1 (getRange_wildcard_operands ToLower r)).
  rewrite (proj2 (getRange_wildcard_operands ToLower r)). cbn [bind].
  unfold getRange_bits, all.
  destruct (Z.ltb_spec (min r) (min r)); [lia |].
  destruct (Z.gtb_spec (max r) (max r)); [lia |].
  destruct (Z.gtb_spec (min r) (max r)); [lia |].
  split; reflexivity.
Qed.

Lemma getRange_wildcard_is_all_witness :
  min months <= max months /\
  (getRange asciiToLower "*" months = all months /\
   getRange asciiToLower "?" months = all months).
Proof.
  assert (H : min months <= max months) by (simpl; lia).
  exact (conj H (getRange_wildcard_is_all asciiToLower months H)).
Defined.

(** ** Intervals *)

Lemma parseDescriptor_every_eq ParseDuration text d :
  ParseDuration text = Some d ->
  parseDescriptor ParseDuration ("@every " +:+ text)
  = if d <? Duration.Hour
    then Ok (intervalSchedule 0 (ceil_int64 (Duration.Minutes d)) 0)
    else if d <? Duration.Hour * 24
    then Ok (intervalSchedule (ceil_int64 (Duration.Hours d)) 0 0)
    else Ok (intervalSchedule 0 0
           (ceil_int64 (Float64.div (Duration.Hours d) (Float64.of_int 24)))).
Proof.
  intros Ht. unfold parseDescriptor.
  change (String.eqb ("@every " +:+ text) "@yearly") with false.
  change (String.eqb ("@every " +:+ text) "@annually") with false.
  change (String.eqb ("@every " +:+ text) "@monthly") with false.
  change (String.eqb ("@every " +:+ text) "@weekly") with false.
  change (String.eqb ("@every " +:+ text) "@daily") with false.
  change (String.eqb ("@every " +:+ text) "@midnight") with false.
  change (String.eqb ("@every " +:+ text) "@hourly") with false.
  cbv beta iota delta [orb].
  destruct (every_prefix text) as [Hp Hdrop]. rewrite Hp, Hdrop, Ht.
  reflexivity.
Qed.

(** [f] holds on the [count] integers from [lo] on. *)
Lemma forall_range (f : Z -> bool) (lo : Z) (count : nat) :
  forallb f (map (fun k => lo + Z.of_nat k) (seq 0 count)) = true ->
  forall n, lo <= n < lo + Z.of_nat count -> f n = true.
Proof.
  intros H n Hn. rewrite forallb_forall in H. apply H.
  apply in_map_iff. exists (Z.to_nat (n - lo)). split; [lia |].
  apply in_seq. lia.
Qed.

Lemma whole_minutes n :
  -1440 <= n < 60 -> ceil_int64 (Duration.Minutes (n * Duration.Minute)) = n.
Proof.
  intros Hn. apply Z.eqb_eq.
  apply (forall_range
           (fun n => ceil_int64 (Duration.Minutes (n * Duration.Minute)) =? n)
           (-1440) 1500); [vm_compute; reflexivity | lia].
Qed.

Lemma whole_hours n :
  1 <= n < 24 -> ceil_int64 (Duration.Hours (n * Duration.Hour)) = n.
Proof.
  intros Hn. apply Z.eqb_eq.
  apply (forall_range
           (fun n => ceil_int64 (Duration.Hours (n * Duration.Hour)) =? n)
           1 23); [vm_compute; reflexivity | lia].
Qed.

Lemma whole_days n :
  1 <= n <= 366 ->
  ceil_int64 (Float64.div (Duration.Hours (n * (Duration.Hour * 24)))
                (Float64.of_int 24)) = n.
Proof.
  intros Hn. apply Z.eqb_eq.
  apply (forall_range
           (fun n => ceil_int64
                       (Float64.div (Duration.Hours (n * (Duration.Hour * 24)))
                          (Float64.of_int 24)) =? n)
           1 366); [vm_compute; reflexivity | lia].
Qed.

(** X17: for a duration of whole minutes below an hour, zero and negative
    ones down to a day included, [@every] gives exactly that number of
    minutes, a negative number for a negative duration; for whole hours
    below a day that number of hours; for whole days up to 366 that number
    of days. *)
Theorem every_whole_units (ParseDuration : string -> option Z)
  (text : string) (n : Z) :
  (ParseDuration text = Some (n * Duration.Minute) -> -1440 <= n < 60 ->
   parseDescriptor ParseDuration ("@every " +:+ text)
   = Ok (intervalSchedule 0 n 0)) /\
  (ParseDuration text = Some (n * Duration.Hour) -> 1 <= n < 24 ->
   parseDescriptor ParseDuration ("@every " +:+ text)
   = Ok (intervalSchedule n 0 0)) /\
  (ParseDuration text = Some (n * (Duration.Hour * 24)) -> 1 <= n <= 366 ->
   parseDescriptor ParseDuration ("@every " +:+ text)
   = Ok (intervalSchedule 0 0 n)).
Proof.
  repeat split; intros Hd Hn; rewrite (parseDescriptor_every_eq _ _ _ Hd).
  - destruct (Z.ltb_spec (n * Duration.Minute) Duration.Hour);
      [| unfold Duration.Hour, Duration.Minute in *; lia].
    rewrite whole_minutes by assumption. reflexivity.
  - destruct (Z.ltb_spec (n * Duration.Hour) Duration.Hour);
      [unfold Duration.Hour, Duration.Minute in *; lia |].
    destruct (Z.ltb_spec (n * Duration.Hour) (Duration.Hour * 24));
      [| unfold Duration.Hour, Duration.Minute in *; lia].
    rewrite whole_hours by assumption. reflexivity.
  - destruct (Z.ltb_spec (n * (Duration.Hour * 24)) Duration.Hour);
      [unfold Duration.Hour, Duration.Minute in *; lia |].
    destruct (Z.ltb_spec (n * (Duration.Hour * 24)) (Duration.Hour * 24));
      [unfold Duration.Hour, Duration.Minute in *; lia |].
    rewrite whole_days by assumption. reflexivity.
Qed.

Lemma every_whole_units_witness :
  ParseDuration_whole "-5m" = Some (-5 * Duration.Minute) /\
  -1440 <= -5 < 60 /\
  parseDescriptor ParseDuration_whole ("@every " +:+ "-5m")
  = Ok (intervalSchedule 0 (-5) 0).
Proof.
  assert (H1 : ParseDuration_whole "-5m" = Some (-5 * Duration.Minute))
    by (vm_compute; reflexivity).
  assert (H2 : -1440 <= -5 < 60) by lia.
  exact (conj H1 (conj H2
           (proj1 (every_whole_units ParseDuration_whole "-5m" (-5)) H1 H2))).
Defined.

(** ** Descriptors and fields *)

(** X18: each named descriptor gives the schedule of the six-field text it
    stands for, with the marker 1001 as repeat date: [@yearly] is [0 0 0 1
    1 *], [@monthly] is [0 0 0 1 * *], [@weekly] is [0 0 0 * * 0],
    [@daily] is [0 0 0 * * *], [@hourly] is [0 0 * * * *]. *)
Theorem descriptors_as_field_specs (ParseDuration : string -> option Z) :
  let marked (r : result Schedule) : result Schedule :=
    let* s := r in
    Ok {| Second := Second s; Minute := Minute s; Hour := Hour s;
          Dom := Dom s; Month := Month s; Dow := Dow s;
          RepeatHour := RepeatHour s; RepeatMin := RepeatMin s;
          RepeatDate := 1001; location := location s |} in
  Parse asciiToLower ParseDuration "@yearly"
  = marked (Parse asciiToLower ParseDuration "0 0 0 1 1 *") /\
  Parse asciiToLower ParseDuration "@monthly"
  = marked (Parse asciiToLower ParseDuration "0 0 0 1 * *") /\
  Parse asciiToLower ParseDuration "@weekly"
  = marked (Parse asciiToLower ParseDuration "0 0 0 * * 0") /\
  Parse asciiToLower ParseDuration "@daily"
  = marked (Parse asciiToLower ParseDuration "0 0 0 * * *") /\
  Parse asciiToLower ParseDuration "@hourly"
  = marked (Parse asciiToLower ParseDuration "0 0 * * * *").
Proof. cbv zeta. repeat split; vm_compute; reflexivity. Qed.

(** ** Names *)

Lemma lower_byte_separator c :
  Ascii.eqb (lower_byte c) "/" = Ascii.eqb c "/" /\
  Ascii.eqb (lower_byte c) "-" = Ascii.eqb c "-" /\
  Ascii.eqb (lower_byte c) "*" = Ascii.eqb c "*" /\
  Ascii.eqb (lower_byte c) "?" = Ascii.eqb c "?".
Proof.
  destruct c as [[] [] [] [] [] [] [] []]; vm_compute; auto.
Qed.

Lemma no_byte_asciiToLower text :
  no_byte "/" (asciiToLower text) = no_byte "/" text /\
  no_byte "-" (asciiToLower text) = no_byte "-" text.
Proof.
  induction text as [| c text [IH1 IH2]]; [split; reflexivity |].
  destruct (lower_byte_separator c) as (H1 & H2 & _).
  cbn [asciiToLower no_byte]. rewrite H1, H2, IH1, IH2. split; reflexivity.
Qed.

Lemma is_wildcard_asciiToLower text :
  is_wildcard (asciiToLower text) = is_wildcard text.
Proof.
  unfold is_wildcard.
  destruct text as [| c text]; [reflexivity |].
  destruct (lower_byte_separator c) as (_ & _ & H1 & H2).
  cbn [asciiToLower String.eqb]. rewrite H1, H2.
  destruct text; reflexivity.
Qed.

Lemma plain_asciiToLower text : plain (asciiToLower text) = plain text.
Proof.
  unfold plain. destruct (no_byte_asciiToLower text) as [-> ->].
  rewrite is_wildcard_asciiToLower. reflexivity.
Qed.

Lemma getRange_value_bits ToLower r ntxt n :
  0 <= min r -> max r <= 62 ->
  plain ntxt = true ->
  parseIntOrName ToLower ntxt (names r) = Ok n ->
  min r <= n <= max r ->
  getRange ToLower ntxt r = Ok (2 ^ n).
Proof.
  intros Hmin Hmax Hp Hn Hnr. unfold getRange.
  rewrite (getRange_value_operands ToLower r ntxt n Hp Hn). cbn [bind].
  destruct (getRange_bits_ok ntxt r n n 1 0) as (v & Hv & Hvr & Hvt);
    try lia; [unfold Int64.max_int; lia
             | unfold Int64.in_range, Int64.min_int, Int64.max_int; lia |].
  rewrite Hv. f_equal. apply int64_ext; [assumption | |].
  - unfold Int64.in_range, Int64.min_int, Int64.max_int.
    assert (2 ^ n <= 2 ^ 62) by (apply Z.pow_le_mono_r; lia).
    pose proof (Z.pow_pos_nonneg 2 n). lia.
  - intros j Hj. rewrite Hvt, Z.bits_0, orb_false_r by lia.
    rewrite Z.pow2_bits_eqb by lia. unfold in_prog. rewrite Z.mod_1_r.
    destruct (Z.leb_spec n j), (Z.leb_spec j n), (Z.eqb_spec n j); try lia;
      reflexivity.
Qed.

(** X19: every name of the month and day-of-week tables stands for a value
    within the bounds of its field, and a text that lowers to the name,
    whatever its capitals, parses to that value and gives the mask of its
    bit. *)
Theorem names_are_values (r : bounds) (table : gmap string Z)
  (name text : string) (v : Z) :
  In r [months; dow] ->
  names r = Some table ->
  table !! name = Some v ->
  asciiToLower text = name ->
  min r <= v <= max r /\
  parseIntOrName asciiToLower text (names r) = Ok v /\
  getRange asciiToLower text r = Ok (2 ^ v).
Proof.
  intros Hr Htable Hname Htext.
  assert (Hparse : parseIntOrName asciiToLower text (names r) = Ok v).
  { unfold parseIntOrName. rewrite Htable, Htext, Hname. reflexivity. }
  assert (Hfacts : min r <= v <= max r /\ plain name = true /\
                   0 <= min r /\ max r <= 62).
  { destruct Hr as [<- | [<- | []]]; injection Htable as <-;
      repeat (apply lookup_insert_Some in Hname as [[<- <-] | [_ Hname]];
              [vm_compute; intuition congruence |]);
      rewrite lookup_empty in Hname; discriminate. }
  destruct Hfacts as (Hv & Hplain & Hmin & Hmax).
  split; [exact Hv |]. split; [exact Hparse |].
  apply getRange_value_bits; try assumption.
  rewrite <- plain_asciiToLower, Htext. exact Hplain.
Qed.

Lemma names_are_values_witness :
  In dow [months; dow] /\
  names dow = Some (list_to_map
       [("sun", 0); ("mon", 1); ("tue", 2); ("wed", 3); ("thu", 4);
        ("fri", 5); ("sat", 6)]) /\
  (list_to_map
       [("sun", 0); ("mon", 1); ("tue", 2); ("wed", 3); ("thu", 4);
        ("fri", 5); ("sat", 6)] : gmap string Z) !! "wed" = Some 3 /\
  asciiToLower "WeD" = "wed" /\
  (min dow <= 3 <= max dow /\
   parseIntOrName asciiToLower "WeD" (names dow) = Ok 3 /\
   getRange asciiToLower "WeD" dow = Ok (2 ^ 3)).
Proof.
  assert (H1 : In dow [months; dow]) by (right; left; reflexivity).
  assert (H2 : names dow = Some (list_to_map
       [("sun", 0); ("mon", 1); ("tue", 2); ("wed", 3); ("thu", 4);
        ("fri", 5); ("sat", 6)])) by reflexivity.
  assert (H3 : (list_to_map
       [("sun", 0); ("mon", 1); ("tue", 2); ("wed", 3); ("thu", 4);
        ("fri", 5); ("sat", 6)] : gmap string Z) !! "wed" = Some 3)
    by (vm_compute; reflexivity).
  assert (H4 : asciiToLower "WeD" = "wed") by reflexivity.
  exact (conj H1 (conj H2 (conj H3 (conj H4
           (names_are_values dow _ "wed" "WeD" 3 H1 H2 H3 H4))))).
Defined.
